(** * Voice-driven name cycler: a shallow embedding of [bibb.py] and [voice.py]

    The two Python programs listen for the phrase "who is he" and answer with
    the next name of a fixed cycle.  [bibb.py] is the threaded version with a
    bounded queue, retries, text-to-speech and a CSV log; [voice.py] is the
    single-loop version.

    Modelling choices.
    - Python [int] is [Z]; [%] is [Z.modulo] (same sign convention as Python
      for a positive divisor) and raises [ZeroDivisionError] on 0.
    - Python [str] is [string]; the model covers the ASCII range, on which
      [str.lower] maps 'A'..'Z' to 'a'..'z' and leaves the rest alone.
    - Every method is a computation in a state-and-exception monad over a
      [World]: the fields of the [VoiceCycler] object, the CSV file, and a
      trace of the observable effects (logger records, prints, speech
      requests, sleeps, transcription calls) in program order.
    - The collaborators the program does not implement (the transcription
      service, the file system, the start of a thread, the wall clock) are
      oracles collected in an [Env].  A pass through the [with open] block
      of the CSV logger can fail at [open] or in the write or the close; a
      thread start can fail for the speech thread and for a worker.
    - Threads are followed by program points under an arbitrary scheduler
      where a property depends on the interleaving: two workers inside
      [_get_next_reply] ([Race]), the speech threads and their lock
      ([Speech]), the main thread against captures, signals, daemon workers
      and the exit of the interpreter ([Process]).  Time is not modelled:
      the one-second timeout of [get] is a wait that ends, with a snippet or
      with [queue.Empty]. *)

From Stdlib Require Import ZArith List String Ascii Bool Lia Permutation.
Import ListNotations.
Local Open Scope string_scope.
Local Open Scope Z_scope.

(** ** Python primitives *)
Module Py.

Inductive exn : Type :=
| ZeroDivisionError
| IndexError
| UnknownValueError
| RequestError (msg : string)
| OSError (msg : string)
| RuntimeError (msg : string)
| QueueFull
| QueueEmpty.

(** [len(l)] as a Python int. *)
Definition len {A : Type} (l : list A) : Z := Z.of_nat (List.length l).

(** [a % b]: raises on a zero divisor. *)
Definition mod_ (a b : Z) : exn + Z :=
  if b =? 0 then inl ZeroDivisionError else inr (a mod b).

(** [l[i]]: negative indices count from the end, out of range raises. *)
Definition getitem {A : Type} (l : list A) (i : Z) : exn + A :=
  let j := if i <? 0 then i + len l else i in
  if j <? 0 then inl IndexError
  else match nth_error l (Z.to_nat j) with
       | Some x => inr x
       | None => inl IndexError
       end.

Definition is_upper (c : ascii) : bool :=
  let n := nat_of_ascii c in (Nat.leb 65 n && Nat.leb n 90)%bool.

Definition lower_char (c : ascii) : ascii :=
  if is_upper c then ascii_of_nat (nat_of_ascii c + 32) else c.

(** [s.lower()] on the ASCII range: the letters 'A'..'Z' are lowered, every
    other character is kept.  [str.lower] also lowers the cased letters
    outside this range; a statement that depends on them is made for
    [is_ascii] texts. *)
Fixpoint lower (s : string) : string :=
  match s with
  | EmptyString => EmptyString
  | String c s' => String (lower_char c) (lower s')
  end.

(** [s.isascii()]: every character is below 128.  On such a string
    [str.lower] changes the letters 'A'..'Z' and nothing else, as [lower]
    does. *)
Fixpoint is_ascii (s : string) : bool :=
  match s with
  | EmptyString => true
  | String c s' => (Nat.ltb (nat_of_ascii c) 128 && is_ascii s')%bool
  end.

(** [p in s] for two strings: [p] occurs in [s] as a contiguous block. *)
Fixpoint str_in (p s : string) : bool :=
  (String.prefix p s
   || match s with
      | EmptyString => false
      | String _ s' => str_in p s'
      end)%bool.

(** [range(1, n + 1)] as the list of attempt numbers. *)
Fixpoint range_from (start : Z) (k : nat) : list Z :=
  match k with
  | O => []
  | S k' => start :: range_from (start + 1) k'
  end.

Definition range1 (n : Z) : list Z := range_from 1 (Z.to_nat n).

(** What one call of [Recognizer.recognize_google] does: a transcript,
    [UnknownValueError], [RequestError], or any other exception. *)
Inductive Outcome : Type :=
| Text (s : string)
| Unknown
| Request (msg : string)
| Crash (msg : string).

End Py.

(** ** bibb.py *)
Module Bibb.
Import Py.

(** [class Config]: the parameters the pipeline reads. *)
Record Config : Type := mkConfig {
  PHRASE : string;
  REPLIES : list string;
  MAX_RETRY : Z;
  QUEUE_MAXSIZE : Z
}.

Definition default_config : Config :=
  {| PHRASE := "who is he";
     REPLIES := ["Vaibhav"; "Manas"; "Dev"];
     MAX_RETRY := 3;
     QUEUE_MAXSIZE := 32 |}.

(** A captured snippet is opaque to the program; it is named by a number. *)
Definition Audio : Type := nat.

Definition Timestamp : Type := string.

(** One CSV row: [timestamp, recognized_text, reply]. *)
Definition Row : Type := (Timestamp * string * string)%type.

Inductive Level : Type := DEBUG | INFO | WARNING | ERROR.

(** The logger messages of the methods modelled here, one constructor per
    call site, carrying the values the f-string interpolates. *)
Inductive Msg : Type :=
| MsgLoggedRow (ts : Timestamp) (text reply : string)
| MsgCsvError (e : exn)
| MsgReceivedSignal (signum : Z)
| MsgQueued
| MsgQueueFull
| MsgRecognized (attempt : Z) (text : string)
| MsgNotUnderstood
| MsgApiError (attempt : Z) (e : exn)
| MsgTrigger (reply : string)
| MsgTtsFailed (e : exn)
| MsgCsvFailed (e : exn)
| MsgLoopStart
| MsgLoopExit
| MsgCycleIndex (count : Z) (reply : string)
| MsgStartingUp
| MsgListening
| MsgShutDown.

(** Observable effects, in the order the program performs them. *)
Inductive Event : Type :=
| EvLog (lvl : Level) (m : Msg)
| EvPrint (reply : string)
| EvSpeak (text : string)
| EvSleep (seconds : Z)
| EvRecognize (a : Audio) (attempt : Z)
| EvSpawn (a : Audio)
| EvBanner
| EvStopListening.

(** How one pass through the [with open(...)] block of [log_interaction]
    can fail: at [open], or after it, in the write or in the flush when the
    file is closed.  In the second case [fragment] is the part of the
    record's line that reached the file before the failure; it may be
    empty, and when it stops short of the line end the next thing written
    continues the same line. *)
Inductive DiskFault : Type :=
| OpenFails (msg : string)
| WriteFails (msg : string) (fragment : string).

Definition fault_msg (d : DiskFault) : string :=
  match d with
  | OpenFails msg => msg
  | WriteFails msg _ => msg
  end.

(** The collaborators outside the program. *)
Record Env : Type := mkEnv {
  (** result of the [attempt]-th transcription call on a snippet *)
  recognize_google : Audio -> Z -> Outcome;
  (** [Some d]: the [k]-th pass through the [with open] block raises
      [OSError], as [d] says *)
  disk_fault : nat -> option DiskFault;
  (** [Some msg]: the [k]-th thread start of the speech engine raises *)
  tts_fault : nat -> option string;
  (** [datetime.now().isoformat()] at the [k]-th call of [log_interaction] *)
  now : nat -> Timestamp;
  (** [Some msg]: starting the worker thread of this snippet raises
      [RuntimeError msg] *)
  start_fault : Audio -> option string
}.

(** The mutable state: the [VoiceCycler] fields, the CSV file, the trace.
    The file is held as its whole records, in order ([csv_file]), and the
    fragments failed writes have left in it ([csv_torn]), each with the
    number of whole records that precede it in the file. *)
Record World : Type := mkWorld {
  count : Z;
  running : bool;
  audio_queue : list Audio;
  csv_file : list Row;
  csv_torn : list (nat * string);
  csv_opens : nat;
  tts_calls : nat;
  trace : list Event
}.

Definition initial_world : World :=
  {| count := 0; running := false; audio_queue := []; csv_file := [];
     csv_torn := []; csv_opens := 0; tts_calls := 0; trace := [] |}.

Definition set_count (c : Z) (w : World) : World :=
  mkWorld c (running w) (audio_queue w) (csv_file w) (csv_torn w)
          (csv_opens w) (tts_calls w) (trace w).
Definition set_running (b : bool) (w : World) : World :=
  mkWorld (count w) b (audio_queue w) (csv_file w) (csv_torn w)
          (csv_opens w) (tts_calls w) (trace w).
Definition set_audio_queue (q : list Audio) (w : World) : World :=
  mkWorld (count w) (running w) q (csv_file w) (csv_torn w)
          (csv_opens w) (tts_calls w) (trace w).
Definition set_csv_file (f : list Row) (w : World) : World :=
  mkWorld (count w) (running w) (audio_queue w) f (csv_torn w)
          (csv_opens w) (tts_calls w) (trace w).
Definition set_csv_torn (t : list (nat * string)) (w : World) : World :=
  mkWorld (count w) (running w) (audio_queue w) (csv_file w) t
          (csv_opens w) (tts_calls w) (trace w).
Definition set_csv_opens (n : nat) (w : World) : World :=
  mkWorld (count w) (running w) (audio_queue w) (csv_file w) (csv_torn w)
          n (tts_calls w) (trace w).
Definition set_tts_calls (n : nat) (w : World) : World :=
  mkWorld (count w) (running w) (audio_queue w) (csv_file w) (csv_torn w)
          (csv_opens w) n (trace w).
Definition emit (e : Event) (w : World) : World :=
  mkWorld (count w) (running w) (audio_queue w) (csv_file w) (csv_torn w)
          (csv_opens w) (tts_calls w) (trace w ++ [e]).

(** *** The state-and-exception monad

    A computation returns normally with a value or raises; the world it
    leaves behind is kept in both cases, as in Python. *)
Inductive Result (A : Type) : Type :=
| Return (a : A)
| Raise (e : exn).
Arguments Return {A} a.
Arguments Raise {A} e.

Definition M (A : Type) : Type := World -> Result A * World.

Definition ret {A : Type} (a : A) : M A := fun w => (Return a, w).
Definition raise {A : Type} (e : exn) : M A := fun w => (Raise e, w).
Definition bind {A B : Type} (m : M A) (k : A -> M B) : M B :=
  fun w => match m w with
           | (Return a, w') => k a w'
           | (Raise e, w') => (Raise e, w')
           end.
(** [try: m / except Exception as e: h e]. *)
Definition try_except {A : Type} (m : M A) (h : exn -> M A) : M A :=
  fun w => match m w with
           | (Return a, w') => (Return a, w')
           | (Raise e, w') => h e w'
           end.
Definition get {A : Type} (f : World -> A) : M A := fun w => (Return (f w), w).
Definition modify (f : World -> World) : M unit := fun w => (Return tt, f w).
Definition lift {A : Type} (r : exn + A) : M A :=
  match r with inl e => raise e | inr a => ret a end.

Declare Scope py_scope.
Delimit Scope py_scope with py.
Notation "x <- m ;; k" := (bind m (fun x => k))
  (at level 61, m at next level, right associativity) : py_scope.
Notation "m ;; k" := (bind m (fun _ => k))
  (at level 61, right associativity) : py_scope.
Local Open Scope py_scope.

Definition logger (lvl : Level) (m : Msg) : M unit := modify (emit (EvLog lvl m)).

(** *** VoiceCycler._get_next_reply *)
Definition _get_next_reply (cfg : Config) : M string :=
  c <- get count ;;
  idx <- lift (mod_ c (len (REPLIES cfg))) ;;
  reply <- lift (getitem (REPLIES cfg) idx) ;;
  c' <- get count ;;
  logger DEBUG (MsgCycleIndex c' reply) ;;
  c'' <- get count ;;
  modify (set_count (c'' + 1)) ;;
  ret reply.

(** *** CSVLogger.log_interaction

    The [with open(..., mode='a')] block can raise at [open], and after it
    in [writerow] or in the flush that closing the file performs; all of it
    is inside the [try].  A record is whole in the file only when none of
    them raised; a failure after [open] can leave a fragment of the line. *)
Definition csv_open (env : Env) (k : nat) : M unit :=
  modify (set_csv_opens (S k)) ;;
  match disk_fault env k with
  | Some (OpenFails msg) => raise (OSError msg)
  | _ => ret tt
  end.

(** [writer.writerow(...)] and the end of the [with] block. *)
Definition writerow (env : Env) (k : nat) (r : Row) : M unit :=
  match disk_fault env k with
  | Some (WriteFails msg fragment) =>
      f <- get csv_file ;;
      t <- get csv_torn ;;
      modify (set_csv_torn (t ++ [(List.length f, fragment)])) ;;
      raise (OSError msg)
  | _ =>
      f <- get csv_file ;;
      modify (set_csv_file (f ++ [r]))
  end.

Definition log_interaction (env : Env) (recognized_text reply : string) : M unit :=
  k <- get csv_opens ;;
  let timestamp := now env k in
  try_except
    (csv_open env k ;;
     writerow env k (timestamp, recognized_text, reply) ;;
     logger DEBUG (MsgLoggedRow timestamp recognized_text reply))
    (fun e => logger ERROR (MsgCsvError e)).

(** *** TTSEngine.speak

    The utterance itself runs in a thread of its own; the method only starts
    it.  [EvSpeak] records a request handed to the speech engine. *)
Definition speak (env : Env) (text : string) : M unit :=
  k <- get tts_calls ;;
  modify (set_tts_calls (S k)) ;;
  match tts_fault env k with
  | Some msg => raise (RuntimeError msg)
  | None => modify (emit (EvSpeak text))
  end.

(** *** queue.Queue: [put_nowait] and [get] of the standard library *)
Definition put_nowait (cfg : Config) (audio : Audio) : M unit :=
  q <- get audio_queue ;;
  if ((0 <? QUEUE_MAXSIZE cfg) && (QUEUE_MAXSIZE cfg <=? len q))%bool
  then raise QueueFull
  else modify (set_audio_queue (q ++ [audio])).

(** [get(timeout=1.0)] when no producer runs during the wait. *)
Definition queue_get : M Audio :=
  q <- get audio_queue ;;
  match q with
  | [] => raise QueueEmpty
  | a :: q' => modify (set_audio_queue q') ;; ret a
  end.

(** *** VoiceCycler.listen_in_background: the capture callback *)
Definition callback (cfg : Config) (audio : Audio) : M unit :=
  try_except
    (put_nowait cfg audio ;;
     logger DEBUG MsgQueued)
    (fun e => match e with
              | QueueFull => logger WARNING MsgQueueFull
              | _ => raise e
              end).

(** *** VoiceCycler._process_audio

    The [for attempt in range(1, MAX_RETRY + 1)] loop.  [None]: the method
    returned from inside the loop.  [Some t]: control reaches the phrase
    check with [recognized_text = t]. *)
Fixpoint recognize_loop (env : Env) (cfg : Config) (audio : Audio)
    (attempts : list Z) (recognized_text : string) : M (option string) :=
  match attempts with
  | [] => ret (Some recognized_text)
  | attempt :: rest =>
      modify (emit (EvRecognize audio attempt)) ;;
      match recognize_google env audio attempt with
      | Text s =>
          let recognized_text := lower s in
          logger DEBUG (MsgRecognized attempt recognized_text) ;;
          ret (Some recognized_text)
      | Unknown =>
          logger WARNING MsgNotUnderstood ;;
          ret None
      | Request msg =>
          logger ERROR (MsgApiError attempt (RequestError msg)) ;;
          if attempt =? MAX_RETRY cfg then ret None
          else modify (emit (EvSleep 1)) ;;
               recognize_loop env cfg audio rest recognized_text
      | Crash msg => raise (RuntimeError msg)
      end
  end.

(** The phrase check and the reaction that follows it. *)
Definition react (env : Env) (cfg : Config) (recognized_text : string) : M unit :=
  if str_in (PHRASE cfg) recognized_text then
    reply <- _get_next_reply cfg ;;
    logger INFO (MsgTrigger reply) ;;
    modify (emit (EvPrint reply)) ;;
    try_except (speak env reply) (fun e => logger ERROR (MsgTtsFailed e)) ;;
    try_except (log_interaction env recognized_text reply)
               (fun e => logger ERROR (MsgCsvFailed e))
  else ret tt.

Definition _process_audio (env : Env) (cfg : Config) (audio : Audio) : M unit :=
  r <- recognize_loop env cfg audio (range1 (MAX_RETRY cfg)) "" ;;
  match r with
  | None => ret tt
  | Some recognized_text => react env cfg recognized_text
  end.

(** *** The signal handler and one turn of the [process_queue] loop *)
Definition _handler (signum : Z) : M unit :=
  logger INFO (MsgReceivedSignal signum) ;;
  modify (set_running false).

(** [threading.Thread(target=self._process_audio, args=(audio,),
    daemon=True).start()]: the start can fail; a started worker is
    [EvSpawn]. *)
Definition start_worker (env : Env) (audio : Audio) : M unit :=
  match start_fault env audio with
  | Some msg => raise (RuntimeError msg)
  | None => modify (emit (EvSpawn audio))
  end.

(** One evaluation of [while self.running: ...]; the result tells whether
    the loop goes round again.  Only the [get] is inside the [try]. *)
Definition process_queue_turn (env : Env) : M bool :=
  r <- get running ;;
  if r then
    got <- try_except
             (audio <- queue_get ;; ret (Some audio))
             (fun e => match e with
                       | QueueEmpty => ret None
                       | _ => raise e
                       end) ;;
    match got with
    | None => ret true
    | Some audio => start_worker env audio ;; ret true
    end
  else logger DEBUG MsgLoopExit ;; ret false.

(** *** Observations on a trace *)
Definition speech_calls (tr : list Event) : list string :=
  flat_map (fun e => match e with EvSpeak t => [t] | _ => [] end) tr.
Definition printed (tr : list Event) : list string :=
  flat_map (fun e => match e with EvPrint t => [t] | _ => [] end) tr.
Definition sleeps (tr : list Event) : list Z :=
  flat_map (fun e => match e with EvSleep t => [t] | _ => [] end) tr.
Definition attempts_made (tr : list Event) : list Z :=
  flat_map (fun e => match e with EvRecognize _ k => [k] | _ => [] end) tr.
Definition spawned (tr : list Event) : list Audio :=
  flat_map (fun e => match e with EvSpawn a => [a] | _ => [] end) tr.

(** [n] successive calls of the reply cycler, replies in call order. *)
Fixpoint next_replies (cfg : Config) (n : nat) : M (list string) :=
  match n with
  | O => ret []
  | S n' =>
      r <- _get_next_reply cfg ;;
      rs <- next_replies cfg n' ;;
      ret (r :: rs)
  end.

(** *** Vocabulary for the statements below *)

(** The reply assigned at counter value [c]. *)
Definition reply_at (cfg : Config) (c : Z) : string :=
  nth (Z.to_nat (c mod len (REPLIES cfg))) (REPLIES cfg) "".

(** Several effects in a row. *)
Definition emits (evs : list Event) (w : World) : World :=
  mkWorld (count w) (running w) (audio_queue w) (csv_file w) (csv_torn w)
          (csv_opens w) (tts_calls w) (trace w ++ evs).

Definition is_request (o : Outcome) : bool :=
  match o with Request _ => true | _ => false end.

Definition request_msg (o : Outcome) : string :=
  match o with Request msg => msg | _ => "" end.

(** What a transient failure on each of [attempts] leaves in the trace when
    none of them is the last allowed attempt. *)
Definition backoff_events (env : Env) (audio : Audio) (attempts : list Z) : list Event :=
  flat_map (fun k =>
              [EvRecognize audio k;
               EvLog ERROR (MsgApiError k
                 (RequestError (request_msg (recognize_google env audio k))));
               EvSleep 1])
           attempts.

(** The effects of a reaction to [text] started in world [w]. *)
Definition reaction_events (env : Env) (cfg : Config) (w : World) (text : string)
  : list Event :=
  let reply := reply_at cfg (count w) in
  [EvLog DEBUG (MsgCycleIndex (count w) reply);
   EvLog INFO (MsgTrigger reply);
   EvPrint reply]
  ++ match tts_fault env (tts_calls w) with
     | None => [EvSpeak reply]
     | Some msg => [EvLog ERROR (MsgTtsFailed (RuntimeError msg))]
     end
  ++ match disk_fault env (csv_opens w) with
     | None => [EvLog DEBUG (MsgLoggedRow (now env (csv_opens w)) text reply)]
     | Some d => [EvLog ERROR (MsgCsvError (OSError (fault_msg d)))]
     end.

(** The rows a reaction to [text] started in world [w] adds to the file. *)
Definition reaction_rows (env : Env) (cfg : Config) (w : World) (text : string)
  : list Row :=
  match disk_fault env (csv_opens w) with
  | None => [(now env (csv_opens w), text, reply_at cfg (count w))]
  | Some _ => []
  end.

(** The fragment a reaction started in world [w] leaves in the file. *)
Definition reaction_torn (env : Env) (w : World) : list (nat * string) :=
  match disk_fault env (csv_opens w) with
  | Some (WriteFails _ fragment) => [(List.length (csv_file w), fragment)]
  | _ => []
  end.

(** The file as the sequence of what was written to it: whole records and
    fragments, each fragment before the record it precedes. *)
Fixpoint layout_from (i : nat) (rows : list Row) (torn : list (nat * string))
  : list (Row + string) :=
  map (fun t => inr (snd t)) (filter (fun t => Nat.eqb (fst t) i) torn)
  ++ match rows with
     | [] => []
     | r :: rows' => inl r :: layout_from (S i) rows' torn
     end.

Definition file_layout (w : World) : list (Row + string) :=
  layout_from 0 (csv_file w) (csv_torn w).

(** What a failed pass through the [with open] block leaves in a file that
    holds [n] whole records. *)
Definition left_behind (d : DiskFault) (n : nat) : list (nat * string) :=
  match d with
  | OpenFails _ => []
  | WriteFails _ fragment => [(n, fragment)]
  end.

(** No fragment is recorded beyond the end of the file. *)
Definition torn_ok (w : World) : Prop :=
  Forall (fun t => (fst t <= List.length (csv_file w))%nat) (csv_torn w).

(** *** VoiceCycler.run

    [try: ... finally: cleanup]: the cleanup runs either way and an
    exception of the body goes on afterwards. *)
Definition try_finally {A : Type} (body : M A) (cleanup : M unit) : M A :=
  fun w => match body w with
           | (Return a, w') =>
               match cleanup w' with
               | (Return _, w'') => (Return a, w'')
               | (Raise e, w'') => (Raise e, w'')
               end
           | (Raise e, w') =>
               match cleanup w' with
               | (Return _, w'') => (Raise e, w'')
               | (Raise e', w'') => (Raise e', w'')
               end
           end.

End Bibb.

(** ** voice.py *)
Module Voice.
Import Py.

Definition REPLIES : list string := ["Vaibhav"; "Manas"; "Dev"].

Inductive Out : Type :=
| OutListening
| OutRecognizerError (msg : string)
| OutName (name : string).

(** The locals of [main] and what it has printed. *)
Record State : Type := mkState {
  count : Z;
  stdout : list Out
}.

Definition print (o : Out) (st : State) : State :=
  mkState (count st) (stdout st ++ [o]).

(** [listen_for_who_is_he]: lowercased transcript, [""] on the two errors
    it catches. *)
Definition listen_for_who_is_he (o : Outcome) (st : State) : exn + (string * State) :=
  let st := print OutListening st in
  match o with
  | Text s => inr (lower s, st)
  | Unknown => inr ("", st)
  | Request msg => inr ("", print (OutRecognizerError msg) st)
  | Crash msg => inl (RuntimeError msg)
  end.

(** [REPLIES[count % len(REPLIES)]]. *)
Definition pick (count : Z) : exn + string :=
  match mod_ count (len REPLIES) with
  | inl e => inl e
  | inr idx => getitem REPLIES idx
  end.

(** One turn of the [while True] loop of [main]. *)
Definition main_turn (o : Outcome) (st : State) : exn + State :=
  match listen_for_who_is_he o st with
  | inl e => inl e
  | inr (text, st) =>
      if str_in "who is he" text then
        match pick (count st) with
        | inl e => inl e
        | inr name =>
            let st := print (OutName name) st in
            inr (mkState (count st + 1) (stdout st))
        end
      else inr st
  end.

End Voice.

(** ** Worker threads inside [_get_next_reply]

    [process_queue] starts one thread per snippet, so several workers can be
    inside [_get_next_reply] at once.  The method takes no lock.  A thread
    is modelled by its program point; a step executes one source line, the
    augmented assignment of line 298 being a load followed by a store. *)
Module Race.
Import Py Bibb.

Inductive Pc : Type :=
| L295
| L296 (idx : Z)
| L297 (reply : string)
| L298_load (reply : string)
| L298_store (reply : string) (loaded : Z)
| L299 (reply : string)
| Done (r : Result string).

Definition step (cfg : Config) (pc : Pc) (w : World) : Pc * World :=
  match pc with
  | L295 =>
      match mod_ (count w) (len (REPLIES cfg)) with
      | inl e => (Done (Raise e), w)
      | inr idx => (L296 idx, w)
      end
  | L296 idx =>
      match getitem (REPLIES cfg) idx with
      | inl e => (Done (Raise e), w)
      | inr reply => (L297 reply, w)
      end
  | L297 reply =>
      (L298_load reply, emit (EvLog DEBUG (MsgCycleIndex (count w) reply)) w)
  | L298_load reply => (L298_store reply (count w), w)
  | L298_store reply loaded => (L299 reply, set_count (loaded + 1) w)
  | L299 reply => (Done (Return reply), w)
  | Done r => (Done r, w)
  end.

(** A thread run on its own for [fuel] steps. *)
Fixpoint run_alone (cfg : Config) (fuel : nat) (pc : Pc) (w : World) : Pc * World :=
  match fuel with
  | O => (pc, w)
  | S fuel' => let '(pc', w') := step cfg pc w in run_alone cfg fuel' pc' w'
  end.

Fixpoint set_nth {A : Type} (i : nat) (x : A) (l : list A) : list A :=
  match l, i with
  | [], _ => []
  | _ :: l', O => x :: l'
  | y :: l', S i' => y :: set_nth i' x l'
  end.

(** The scheduler lets thread [i] take one step. *)
Definition step_pool (cfg : Config) (st : list Pc * World) (i : nat) : list Pc * World :=
  let '(pool, w) := st in
  match nth_error pool i with
  | Some pc => let '(pc', w') := step cfg pc w in (set_nth i pc' pool, w')
  | None => (pool, w)
  end.

Definition run (cfg : Config) (schedule : list nat) (st : list Pc * World)
  : list Pc * World :=
  fold_left (step_pool cfg) schedule st.

(** Thread 0 reads the counter, thread 1 reads it too, then each runs on. *)
Definition both_read_first : list nat :=
  [0; 1; 0; 0; 0; 0; 0; 1; 1; 1; 1; 1]%nat.

(** Both threads load the counter on line 298 before either stores it. *)
Definition both_load_first : list nat :=
  [0; 0; 0; 0; 1; 1; 1; 1; 0; 1; 0; 1]%nat.

(** Thread 0 runs to its end before thread 1 starts. *)
Definition one_after_the_other : list nat :=
  [0; 0; 0; 0; 0; 0; 1; 1; 1; 1; 1; 1]%nat.

End Race.

(** ** The normalisation the specification describes *)
Module Spec.
Import Py.

Definition is_space (c : ascii) : bool :=
  let n := nat_of_ascii c in
  ((Nat.leb 9 n && Nat.leb n 13) || (Nat.leb 28 n && Nat.leb n 32))%bool.

Fixpoint lstrip (s : string) : string :=
  match s with
  | EmptyString => EmptyString
  | String c s' => if is_space c then lstrip s' else s
  end.

Fixpoint rstrip (s : string) : string :=
  match s with
  | EmptyString => EmptyString
  | String c s' =>
      match rstrip s' with
      | EmptyString => if is_space c then EmptyString else String c EmptyString
      | t => String c t
      end
  end.

(** [s.strip()]. *)
Definition strip (s : string) : string := rstrip (lstrip s).

(** "normalize (lowercase, trim)". *)
Definition normalize (s : string) : string := strip (lower s).

End Spec.

(** ** Sample environments *)
Module Samples.
Import Py Bibb.

Definition no_fault : nat -> option string := fun _ => None.
Definition noon : nat -> Timestamp := fun _ => "2024-05-01T12:00:00".

(** The service hears the phrase with a capital and a space on each side. *)
Definition no_disk_fault : nat -> option DiskFault := fun _ => None.
Definition all_start : Audio -> option string := fun _ => None.

Definition env_padded : Env :=
  mkEnv (fun _ _ => Text " Who is he ") no_disk_fault no_fault noon all_start.

(** The service is unreachable twice, then hears the phrase. *)
Definition env_flaky : Env :=
  mkEnv (fun _ k => if k <? 3 then Request "connection failed"
                    else Text "who is he")
        no_disk_fault no_fault noon all_start.

(** The service is unreachable once, then hears nothing intelligible. *)
Definition env_mumble : Env :=
  mkEnv (fun _ k => if k <? 2 then Request "connection failed" else Unknown)
        no_disk_fault no_fault noon all_start.

(** The service hears a longer sentence around the phrase. *)
Definition env_sentence : Env :=
  mkEnv (fun _ _ => Text "i wonder who is he today")
        no_disk_fault no_fault noon all_start.

(** The first [open] of the CSV file fails, the later ones succeed. *)
Definition env_disk_hiccup : Env :=
  mkEnv (fun _ _ => Text "who is he")
        (fun k => match k with
                  | O => Some (OpenFails "No space left on device")
                  | _ => None
                  end)
        no_fault noon all_start.

(** The first write to the CSV file fails after part of the line reached
    the file, the later ones succeed. *)
Definition env_torn_write : Env :=
  mkEnv (fun _ _ => Text "who is he")
        (fun k => match k with
                  | O => Some (WriteFails "No space left on device"
                                          "2024-05-01T12:00:00,who")
                  | _ => None
                  end)
        no_fault noon all_start.

(** The worker thread of snippet 1 cannot be started. *)
Definition env_no_thread : Env :=
  mkEnv (fun _ _ => Text "who is he") no_disk_fault no_fault noon
        (fun a => match a with
                  | 1%nat => Some "can't start new thread"
                  | _ => None
                  end).

(** A world whose queue holds [QUEUE_MAXSIZE] snippets. *)
Definition full_world : World :=
  set_audio_queue (repeat 7%nat 32) (set_running true initial_world).

End Samples.

(** ** The dispatch loop as a whole

    [process_queue] runs on the main thread while the listener thread calls
    [callback] and signals run [_handler].  The loop is modelled turn by
    turn: before each test of [self.running] the stimuli that arrived since
    the previous turn are delivered in order. *)
Module Pipeline.
Import Py Bibb.
Local Open Scope py_scope.

Inductive Stimulus : Type :=
| Captured (audio : Audio)
| Signalled (signum : Z).

Definition deliver (cfg : Config) (s : Stimulus) : M unit :=
  match s with
  | Captured audio => callback cfg audio
  | Signalled signum => _handler signum
  end.

Fixpoint deliver_all (cfg : Config) (stimuli : list Stimulus) : M unit :=
  match stimuli with
  | [] => ret tt
  | s :: rest => deliver cfg s ;; deliver_all cfg rest
  end.

(** The [while self.running] loop over a script of turns.  [true]: the loop
    was left; [false]: the script ended with the loop still going. *)
Fixpoint loop (env : Env) (cfg : Config) (script : list (list Stimulus))
  : M bool :=
  match script with
  | [] => ret false
  | stimuli :: rest =>
      deliver_all cfg stimuli ;;
      go <- process_queue_turn env ;;
      if go then loop env cfg rest else ret true
  end.

Definition process_queue (env : Env) (cfg : Config)
    (script : list (list Stimulus)) : M bool :=
  logger DEBUG MsgLoopStart ;;
  loop env cfg script.

(** [VoiceCycler.run]: set the flag, announce, start listening, run the
    loop, and in any case stop listening and log the shutdown. *)
Definition run (env : Env) (cfg : Config) (script : list (list Stimulus))
  : M bool :=
  modify (set_running true) ;;
  logger INFO MsgStartingUp ;;
  modify (emit EvBanner) ;;
  logger INFO MsgListening ;;
  try_finally
    (process_queue env cfg script)
    (modify (emit EvStopListening) ;;
     logger INFO MsgShutDown).

Definition is_signal (s : Stimulus) : bool :=
  match s with Signalled _ => true | Captured _ => false end.

(** The snippets a list of stimuli captures, in order. *)
Definition captures (stimuli : list Stimulus) : list Audio :=
  flat_map (fun s => match s with Captured a => [a] | Signalled _ => [] end)
           stimuli.

(** The number of "queue full" warnings in a trace. *)
Definition drops (tr : list Event) : nat :=
  List.length
    (filter (fun e => match e with
                      | EvLog WARNING MsgQueueFull => true
                      | _ => false
                      end) tr).

(** Workers started one after the other, each running to its end before
    the next starts.  An exception that escapes [_process_audio] ends that
    worker's thread only. *)
Fixpoint workers_in_turn (env : Env) (cfg : Config) (audios : list Audio) : M unit :=
  match audios with
  | [] => ret tt
  | a :: rest =>
      try_except (_process_audio env cfg a) (fun _ => ret tt) ;;
      workers_in_turn env cfg rest
  end.

(** A service whose answer for snippet number [i] is the [i]-th outcome of a
    list, whatever the attempt; the other collaborators are free. *)
Definition scripted (outcomes : list Outcome) (base : Env) : Env :=
  mkEnv (fun audio _ => nth audio outcomes Unknown)
        (disk_fault base) (tts_fault base) (now base) (start_fault base).

End Pipeline.

(** ** The process: main thread, worker threads and the exit

    [process_queue] starts every worker with [daemon=True] and nothing in
    [run] or [main] joins a worker.  The main thread is followed here point
    by point through the loop, so that a signal or a capture can fall
    between the test of the flag and the [get], or during the [get]; a
    worker, once scheduled to its end, runs [_process_audio] as a whole.
    When [run] and [main] have returned the interpreter exits: it waits for
    the threads that are not daemons and abandons the daemon threads. *)
Module Process.
Import Py Bibb Pipeline.

(** Where the main thread is. *)
Inductive MainPc : Type :=
(** about to evaluate [while self.running] *)
| AtTest
(** inside [self.audio_queue.get(timeout=1.0)] *)
| AtGet
(** holds the dequeued snippet, about to start its thread *)
| AtStart (audio : Audio)
(** has left the loop, normally or with an exception, and is about to run
    the [finally] block of [run] *)
| AtFinally (e : option exn)
(** [run] and [main] are over and the process is gone *)
| Exited (e : option exn).

(** A thread started by [process_queue], with the [daemon] flag it was
    given. *)
Record Worker : Type := mkWorker {
  snippet : Audio;
  daemon : bool
}.

Record Proc : Type := mkProc {
  world : World;
  main : MainPc;
  (** workers started and not yet at their end, in start order *)
  live : list Worker;
  (** workers that ran to their end, by return or by an exception *)
  finished : list Audio;
  (** workers that were still alive when the process exited *)
  abandoned : list Audio;
  (** calls of [get(timeout=1.0)] begun so far *)
  waits : nat
}.

Inductive Tick : Type :=
| Stimulate (s : Stimulus)
| MainStep
| WorkerEnds (audio : Audio).

Definition boot (w : World) : Proc := mkProc w AtTest [] [] [] 0.

Definition is_worker (audio : Audio) (k : Worker) : bool :=
  Nat.eqb (snippet k) audio.

(** The live workers without the first one that works on [audio]. *)
Fixpoint end_worker (audio : Audio) (l : list Worker) : list Worker :=
  match l with
  | [] => []
  | k :: rest =>
      if is_worker audio k then rest else k :: end_worker audio rest
  end.

Definition is_main (t : Tick) : bool :=
  match t with MainStep => true | _ => false end.

Definition main_steps (ticks : list Tick) : nat :=
  List.length (filter is_main ticks).

(** The main thread is inside the [while] loop. *)
Definition in_loop (pc : MainPc) : bool :=
  match pc with
  | AtTest | AtGet | AtStart _ => true
  | AtFinally _ | Exited _ => false
  end.

(** The interpreter's exit: the threads that are not daemons are waited
    for, the daemon threads are stopped where they are. *)
Definition exit_process (env : Env) (cfg : Config) (e : option exn) (p : Proc)
  : Proc :=
  let waited := filter (fun k => negb (daemon k)) (live p) in
  let dropped := filter daemon (live p) in
  mkProc (snd (workers_in_turn env cfg (map snippet waited) (world p)))
         (Exited e) []
         (finished p ++ map snippet waited)
         (abandoned p ++ map snippet dropped)
         (waits p).

(** One step of the main thread.  The workers it starts are daemons; the
    [finally] block of [run] and the return of [main] are one step. *)
Definition main_step (env : Env) (cfg : Config) (p : Proc) : Proc :=
  match main p with
  | AtTest =>
      if running (world p)
      then mkProc (world p) AtGet (live p) (finished p) (abandoned p)
                  (S (waits p))
      else mkProc (emit (EvLog DEBUG MsgLoopExit) (world p)) (AtFinally None)
                  (live p) (finished p) (abandoned p) (waits p)
  | AtGet =>
      match audio_queue (world p) with
      | [] => mkProc (world p) AtTest (live p) (finished p) (abandoned p)
                     (waits p)
      | a :: q => mkProc (set_audio_queue q (world p)) (AtStart a) (live p)
                         (finished p) (abandoned p) (waits p)
      end
  | AtStart a =>
      match start_fault env a with
      | Some msg =>
          mkProc (world p) (AtFinally (Some (RuntimeError msg))) (live p)
                 (finished p) (abandoned p) (waits p)
      | None =>
          mkProc (emit (EvSpawn a) (world p)) AtTest
                 (live p ++ [mkWorker a true])
                 (finished p) (abandoned p) (waits p)
      end
  | AtFinally e =>
      exit_process env cfg e
        (mkProc (emits [EvStopListening; EvLog INFO MsgShutDown] (world p))
                (AtFinally e) (live p) (finished p) (abandoned p) (waits p))
  | Exited _ => p
  end.

(** One tick of the scheduler; nothing happens in a process that is gone. *)
Definition step (env : Env) (cfg : Config) (p : Proc) (t : Tick) : Proc :=
  match main p with
  | Exited _ => p
  | _ =>
      match t with
      | Stimulate s =>
          mkProc (snd (deliver cfg s (world p))) (main p) (live p)
                 (finished p) (abandoned p) (waits p)
      | MainStep => main_step env cfg p
      | WorkerEnds a =>
          if existsb (is_worker a) (live p)
          then mkProc (snd (_process_audio env cfg a (world p))) (main p)
                      (end_worker a (live p))
                      (finished p ++ [a]) (abandoned p) (waits p)
          else p
      end
  end.

Definition run (env : Env) (cfg : Config) (ticks : list Tick) (p : Proc) : Proc :=
  fold_left (step env cfg) ticks p.

(** The main thread taken through one evaluation of the loop on its own. *)
Definition one_turn (env : Env) (cfg : Config) (p : Proc) : Proc :=
  let p1 := main_step env cfg p in
  match main p1 with
  | AtGet =>
      let p2 := main_step env cfg p1 in
      match main p2 with
      | AtStart _ => main_step env cfg p2
      | _ => p2
      end
  | _ => p1
  end.

(** How many steps the main thread is from the exit once the flag is
    cleared, and how many workers it can still start. *)
Definition rank (pc : MainPc) : nat :=
  match pc with
  | AtGet => 4
  | AtStart _ => 3
  | AtTest => 2
  | AtFinally _ => 1
  | Exited _ => 0
  end.

Definition slack (pc : MainPc) : nat :=
  match pc with
  | AtGet | AtStart _ => 1
  | _ => 0
  end.

(** Every worker started so far, wherever it is now. *)
Definition workers_of (p : Proc) : list Audio :=
  map snippet (live p) ++ finished p ++ abandoned p.

(** What a worker and a capture leave alone: the flag of the loop and the
    list of the workers started. *)
Definition keeps (w w' : World) : Prop :=
  running w' = running w /\ spawned (trace w') = spawned (trace w).

Definition Keeps {A : Type} (m : M A) : Prop :=
  forall w : World, keeps w (snd (m w)).

(** A snippet is captured and its worker started; then a signal arrives and
    the main thread leaves; the worker is scheduled only afterwards. *)
Definition exit_before_worker : list Tick :=
  [Stimulate (Captured 0%nat); MainStep; MainStep; MainStep;
   Stimulate (Signalled 2); MainStep; MainStep; WorkerEnds 0%nat].

(** The same, with the worker scheduled before the main thread leaves. *)
Definition worker_before_exit : list Tick :=
  [Stimulate (Captured 0%nat); MainStep; MainStep; MainStep;
   Stimulate (Signalled 2); WorkerEnds 0%nat; MainStep; MainStep].

End Process.

(** ** The speech threads

    Each [TTSEngine.speak] starts a thread that runs [_speak_task]: take the
    lock, log, [engine.say], [engine.runAndWait], release.  A thread is
    modelled by its program point, the scheduler picks which thread moves. *)
Module Speech.
Import Py Bibb.

Inductive Pc : Type :=
| Waiting
| Logging
| Saying
| RunningLoop
| Releasing
| Finished.

(** What reaches the logger and the engine, tagged with the thread. *)
Inductive Sound : Type :=
| SLog (tid : nat) (text : string)
| SSay (tid : nat) (text : string)
| SRun (tid : nat)
| SError (tid : nat) (msg : string).

Record Engine : Type := mkEngine {
  locked : bool;
  pool : list (string * Pc);
  sounds : list Sound
}.

(** [Some msg]: the engine call raises for this text. *)
Record Faults : Type := mkFaults {
  say_fault : string -> option string;
  run_fault : string -> option string
}.

Definition start (texts : list string) : Engine :=
  mkEngine false (map (fun t => (t, Waiting)) texts) [].

Definition inside (pc : Pc) : bool :=
  match pc with
  | Logging | Saying | RunningLoop | Releasing => true
  | Waiting | Finished => false
  end.

(** Thread [i] takes one step; a thread waiting for a held lock stays put. *)
Definition step (f : Faults) (e : Engine) (i : nat) : Engine :=
  match nth_error (pool e) i with
  | None => e
  | Some (text, pc) =>
      let move pc' := Race.set_nth i (text, pc') (pool e) in
      match pc with
      | Waiting =>
          if locked e then e
          else mkEngine true (move Logging) (sounds e)
      | Logging =>
          mkEngine (locked e) (move Saying) (sounds e ++ [SLog i text])
      | Saying =>
          match say_fault f text with
          | Some msg =>
              mkEngine (locked e) (move Releasing) (sounds e ++ [SError i msg])
          | None =>
              mkEngine (locked e) (move RunningLoop) (sounds e ++ [SSay i text])
          end
      | RunningLoop =>
          match run_fault f text with
          | Some msg =>
              mkEngine (locked e) (move Releasing) (sounds e ++ [SError i msg])
          | None =>
              mkEngine (locked e) (move Releasing) (sounds e ++ [SRun i])
          end
      | Releasing => mkEngine false (move Finished) (sounds e)
      | Finished => e
      end
  end.

Definition run (f : Faults) (schedule : list nat) (e : Engine) : Engine :=
  fold_left (step f) schedule e.

(** Where the engine is within an utterance. *)
Inductive Phase : Type :=
| Idle
| Announced (tid : nat)
| Queued (tid : nat).

(** Reads a sound trace as a sequence of utterances, each made of one
    thread's log line, [say] and [runAndWait] (or an error in their place);
    [None] when the sounds of two threads are interleaved. *)
Fixpoint scan (p : Phase) (l : list Sound) : option Phase :=
  match l with
  | [] => Some p
  | s :: l' =>
      match p, s with
      | Idle, SLog i _ => scan (Announced i) l'
      | Announced i, SSay j _ => if Nat.eqb i j then scan (Queued i) l' else None
      | Announced i, SError j _ => if Nat.eqb i j then scan Idle l' else None
      | Queued i, SRun j => if Nat.eqb i j then scan Idle l' else None
      | Queued i, SError j _ => if Nat.eqb i j then scan Idle l' else None
      | _, _ => None
      end
  end.

(** The phase a thread at [pc] has brought the engine to. *)
Definition phase_of (i : nat) (pc : Pc) : Phase :=
  match pc with
  | Saying => Announced i
  | RunningLoop => Queued i
  | _ => Idle
  end.

(** The threads inside the [with self.lock] block. *)
Definition holders (e : Engine) : list (string * Pc) :=
  filter (fun tp => inside (snd tp)) (pool e).

(** Thread [h], if any, is the only one inside the block; the lock is held
    exactly then, and the sounds so far are whole utterances followed by
    what thread [h] has emitted of its own. *)
Definition consistent (e : Engine) (h : option nat) : Prop :=
  (forall j t pc, nth_error (pool e) j = Some (t, pc) ->
                  inside pc = true -> h = Some j)
  /\ match h with
     | None => locked e = false /\ scan Idle (sounds e) = Some Idle
     | Some i =>
         locked e = true
         /\ exists t pc, nth_error (pool e) i = Some (t, pc)
                         /\ inside pc = true
                         /\ scan Idle (sounds e) = Some (phase_of i pc)
     end.

End Speech.

(** ** The main loop of voice.py over several turns *)
Module VoiceLoop.
Import Py.

(** The [while True] loop on the outcomes of the successive [listen] calls;
    an exception ends it. *)
Fixpoint main_loop (outcomes : list Outcome) (st : Voice.State) : exn + Voice.State :=
  match outcomes with
  | [] => inr st
  | o :: rest =>
      match Voice.main_turn o st with
      | inl e => inl e
      | inr st' => main_loop rest st'
      end
  end.

Definition names (out : list Voice.Out) : list string :=
  flat_map (fun o => match o with Voice.OutName n => [n] | _ => [] end) out.

Definition is_crash (o : Outcome) : bool :=
  match o with Crash _ => true | _ => false end.

(** Whether a turn with this outcome detects the phrase. *)
Definition fires (o : Outcome) : bool :=
  match o with
  | Text s => str_in "who is he" (lower s)
  | _ => false
  end.

End VoiceLoop.

(** ** The CSV file across program starts

    [CSVLogger.__init__] writes the header when the path does not exist;
    [log_interaction] opens with mode ['a'], which creates a missing file.
    A file is its list of records, [None] when the path does not exist. *)
Module CsvFile.
Import Py Bibb.

Definition Record_ : Type := list string.
Definition File : Type := option (list Record_).

Definition header : Record_ := ["timestamp"; "recognized_text"; "reply"].

Inductive SetupMsg : Type :=
| MsgCreated
| MsgCreateFailed (e : exn).

(** [CSVLogger.__init__]; [fault] is what [open(..., mode='w')] does. *)
Definition __init__ (fault : option string) (f : File)
  : File * list (Level * SetupMsg) :=
  match f with
  | Some _ => (f, [])
  | None =>
      match fault with
      | None => (Some [header], [(INFO, MsgCreated)])
      | Some msg => (None, [(ERROR, MsgCreateFailed (OSError msg))])
      end
  end.

Definition record_of (r : Row) : Record_ :=
  let '(ts, text, reply) := r in [ts; text; reply].

(** The file after the rows of one program run were appended to it. *)
Definition appended (f : File) (rows : list Row) : File :=
  match rows with
  | [] => f
  | _ => Some ((match f with
                | None => []
                | Some records => records
                end) ++ map record_of rows)%list
  end.

(** One program run: the logger is set up, then the run's rows are
    appended. *)
Definition session (f : File) (s : option string * list Row) : File :=
  appended (fst (__init__ (fst s) f)) (snd s).

Definition sessions (f : File) (l : list (option string * list Row)) : File :=
  fold_left session l f.

End CsvFile.

(** * Properties *)

Import Py Bibb.
Local Open Scope list_scope.
Local Open Scope py_scope.

(** ** Python primitives *)
Section PyFacts.

Lemma len_nonneg {A : Type} (l : list A) : 0 <= len l.
Proof. unfold len. lia. Qed.

Lemma len_pos {A : Type} (l : list A) : l <> [] -> 0 < len l.
Proof. destruct l; [congruence | unfold len; simpl; lia]. Qed.

Lemma len_app {A : Type} (l1 l2 : list A) : len (l1 ++ l2) = len l1 + len l2.
Proof. unfold len. rewrite length_app. lia. Qed.

(** Indexing by a residue modulo the length never raises. *)
Lemma getitem_mod {A : Type} (l : list A) (c : Z) (d : A) :
  l <> [] ->
  getitem l (c mod len l) = inr (nth (Z.to_nat (c mod len l)) l d).
Proof.
  intros Hl. pose proof (len_pos l Hl) as Hp.
  pose proof (Z.mod_pos_bound c (len l) Hp) as [H0 H1].
  unfold getitem.
  destruct (c mod len l <? 0) eqn:E; [apply Z.ltb_lt in E; lia |].
  rewrite E.
  destruct (nth_error l (Z.to_nat (c mod len l))) eqn:N.
  - f_equal. symmetry. apply nth_error_nth. exact N.
  - apply nth_error_None in N. unfold len in *. lia.
Qed.

Lemma prefix_iff (p s : string) :
  String.prefix p s = true <-> exists b, s = (p ++ b)%string.
Proof.
  revert s. induction p as [| c p IH]; intros s; simpl.
  - split; [intros _; exists s; reflexivity | intros _; destruct s; reflexivity].
  - destruct s as [| c' s]; simpl.
    + split; [discriminate | intros [b Hb]; discriminate].
    + destruct (ascii_dec c c') as [E | Hne].
      * subst c'. rewrite IH. split; intros [b Hb]; exists b; congruence.
      * split; [discriminate | intros [b Hb]; congruence].
Qed.

(** [str_in] is substring membership. *)
Lemma str_in_iff (p s : string) :
  str_in p s = true <-> exists a b, s = (a ++ p ++ b)%string.
Proof.
  induction s as [| c s IH]; cbn [str_in].
  - rewrite orb_false_r, prefix_iff. split.
    + intros [b Hb]. exists EmptyString, b. exact Hb.
    + intros [a [b Hb]]. destruct a; [exists b; exact Hb | discriminate].
  - rewrite orb_true_iff, prefix_iff, IH. split.
    + intros [[b Hb] | [a [b Hb]]].
      * exists EmptyString, b. exact Hb.
      * exists (String c a), b. simpl. congruence.
    + intros [a [b Hb]]. destruct a as [| c' a]; simpl in Hb.
      * left. exists b. exact Hb.
      * right. exists a, b. congruence.
Qed.

Lemma range_from_app (s : Z) (j r : nat) :
  range_from s (j + r) = range_from s j ++ range_from (s + Z.of_nat j) r.
Proof.
  revert s. induction j as [| j IH]; intros s.
  - simpl. f_equal. lia.
  - cbn [range_from Nat.add app]. rewrite IH. do 3 f_equal. lia.
Qed.

End PyFacts.

(** ** The monad *)
Lemma bind_eq {A B : Type} (m : M A) (k : A -> M B) (w : World) :
  bind m k w = match m w with
               | (Return a, w') => k a w'
               | (Raise e, w') => (Raise e, w')
               end.
Proof. reflexivity. Qed.

Lemma try_except_eq {A : Type} (m : M A) (h : exn -> M A) (w : World) :
  try_except m h w = match m w with
                     | (Return a, w') => (Return a, w')
                     | (Raise e, w') => h e w'
                     end.
Proof. reflexivity. Qed.

Lemma logger_eq (lvl : Level) (m : Msg) (w : World) :
  logger lvl m w = (Return tt, emit (EvLog lvl m) w).
Proof. reflexivity. Qed.

Lemma modify_eq (f : World -> World) (w : World) :
  modify f w = (Return tt, f w).
Proof. reflexivity. Qed.

(** ** The reply cycler, called sequentially *)
Section Cycler.

Variable cfg : Config.
Hypothesis replies_nonempty : REPLIES cfg <> [].

(** One call: the reply of the current counter value, one debug record,
    the counter one higher. *)
Lemma get_next_reply_eq (w : World) :
  _get_next_reply cfg w =
  (Return (reply_at cfg (count w)),
   set_count (count w + 1)
     (emit (EvLog DEBUG (MsgCycleIndex (count w) (reply_at cfg (count w)))) w)).
Proof.
  unfold _get_next_reply, bind, get, lift, mod_.
  pose proof (len_pos _ replies_nonempty) as Hp.
  destruct (len (REPLIES cfg) =? 0) eqn:E; [apply Z.eqb_eq in E; lia |].
  cbn [ret]. rewrite (getitem_mod _ _ "" replies_nonempty).
  reflexivity.
Qed.

Lemma next_replies_eq (n : nat) : forall w,
  fst (next_replies cfg n w) =
    Return (map (fun i => reply_at cfg (count w + Z.of_nat i)) (seq 0 n))
  /\ count (snd (next_replies cfg n w)) = count w + Z.of_nat n.
Proof.
  induction n as [| n IH]; intros w.
  - cbn. split; [reflexivity | lia].
  - cbn [next_replies]. rewrite bind_eq, get_next_reply_eq, bind_eq.
    match goal with |- context [next_replies cfg n ?w1] =>
      destruct (IH w1) as [Hr Hc];
      destruct (next_replies cfg n w1) as [r w2] end.
    cbn [fst snd] in *. subst r. cbn [ret fst snd count set_count emit] in *.
    split.
    + f_equal. cbn [seq map]. f_equal.
      * f_equal. lia.
      * rewrite <- seq_shift, map_map. apply map_ext. intros i.
        f_equal. lia.
    + lia.
Qed.

End Cycler.

Lemma reply_at_nat (cfg : Config) (i : nat) :
  reply_at cfg (Z.of_nat i) =
  nth (i mod List.length (REPLIES cfg)) (REPLIES cfg) "".
Proof.
  unfold reply_at, len. rewrite <- Nat2Z.inj_mod, Nat2Z.id. reflexivity.
Qed.

(** C1.  Starting from a counter of 0, as at process start, [n] successive
    calls of the reply cycler all return, and the call number [i] (counting
    from 0) returns [REPLIES[i mod len(REPLIES)]]; the counter then equals
    [n].  With the default replies Vaibhav, Manas, Dev the first four calls
    return Vaibhav, Manas, Dev, Vaibhav. *)
Theorem nth_detection_reply :
  forall (cfg : Config) (w : World) (n : nat),
    REPLIES cfg <> [] ->
    count w = 0 ->
    fst (next_replies cfg n w) =
      Return (map (fun i => nth (i mod List.length (REPLIES cfg)) (REPLIES cfg) "")
                  (seq 0 n))
    /\ count (snd (next_replies cfg n w)) = Z.of_nat n
    /\ fst (next_replies default_config 4 w) =
         Return ["Vaibhav"; "Manas"; "Dev"; "Vaibhav"].
Proof.
  intros cfg w n Hne H0.
  assert (Hgen : forall c k, REPLIES c <> [] -> fst (next_replies c k w) =
      Return (map (fun i => nth (i mod List.length (REPLIES c)) (REPLIES c) "")
                  (seq 0 k))).
  { intros c k Hc. destruct (next_replies_eq c Hc k w) as [Hr _].
    rewrite Hr. f_equal. apply map_ext. intros i.
    rewrite H0, Z.add_0_l. apply reply_at_nat. }
  split; [apply Hgen; exact Hne |]. split.
  - destruct (next_replies_eq cfg Hne n w) as [_ Hc]. rewrite Hc. lia.
  - rewrite Hgen by discriminate. reflexivity.
Qed.

Lemma nth_detection_reply_witness :
  fst (next_replies default_config 5 initial_world) =
    Return (map (fun i => nth (i mod 3) ["Vaibhav"; "Manas"; "Dev"] "")
                (seq 0 5))
  /\ count (snd (next_replies default_config 5 initial_world)) = 5
  /\ fst (next_replies default_config 4 initial_world) =
       Return ["Vaibhav"; "Manas"; "Dev"; "Vaibhav"].
Proof.
  apply (nth_detection_reply default_config initial_world 5).
  - discriminate.
  - reflexivity.
Defined.

(** ** Effects in a row *)
Lemma emit_emits (e : Event) (w : World) : emit e w = emits [e] w.
Proof. reflexivity. Qed.

Lemma emits_emits (a b : list Event) (w : World) :
  emits b (emits a w) = emits (a ++ b) w.
Proof. unfold emits. cbn. rewrite app_assoc. reflexivity. Qed.

Lemma emits_nil (w : World) : emits [] w = w.
Proof. destruct w. unfold emits. cbn. rewrite app_nil_r. reflexivity. Qed.

Lemma printed_app (a b : list Event) : printed (a ++ b) = printed a ++ printed b.
Proof. apply flat_map_app. Qed.

Lemma speech_calls_app (a b : list Event) :
  speech_calls (a ++ b) = speech_calls a ++ speech_calls b.
Proof. apply flat_map_app. Qed.

Lemma sleeps_app (a b : list Event) : sleeps (a ++ b) = sleeps a ++ sleeps b.
Proof. apply flat_map_app. Qed.

Lemma attempts_made_app (a b : list Event) :
  attempts_made (a ++ b) = attempts_made a ++ attempts_made b.
Proof. apply flat_map_app. Qed.

(** A run of transient failures asks for no speech, prints nothing, sleeps
    one second per failure and calls the service once per attempt. *)
Lemma backoff_events_obs (env : Env) (audio : Audio) (l : list Z) :
  speech_calls (backoff_events env audio l) = []
  /\ printed (backoff_events env audio l) = []
  /\ sleeps (backoff_events env audio l) = map (fun _ => 1) l
  /\ attempts_made (backoff_events env audio l) = l.
Proof.
  induction l as [| k l (Hs & Hp & Hz & Ha)]; [repeat split |].
  cbn [backoff_events flat_map] in *. fold (backoff_events env audio l) in *.
  rewrite speech_calls_app, printed_app, sleeps_app, attempts_made_app.
  rewrite Hs, Hp, Hz, Ha. repeat split.
Qed.

(** ** The log sink and the speech engine *)
Lemma log_interaction_eq (env : Env) (text reply : string) (w : World) :
  log_interaction env text reply w =
  (Return tt,
   match disk_fault env (csv_opens w) with
   | None =>
       emit (EvLog DEBUG (MsgLoggedRow (now env (csv_opens w)) text reply))
         (set_csv_file (csv_file w ++ [(now env (csv_opens w), text, reply)])
            (set_csv_opens (S (csv_opens w)) w))
   | Some (OpenFails msg) =>
       emit (EvLog ERROR (MsgCsvError (OSError msg)))
         (set_csv_opens (S (csv_opens w)) w)
   | Some (WriteFails msg fragment) =>
       emit (EvLog ERROR (MsgCsvError (OSError msg)))
         (set_csv_torn
            (csv_torn w ++ [(List.length (csv_file w), fragment)])
            (set_csv_opens (S (csv_opens w)) w))
   end).
Proof.
  unfold log_interaction, csv_open, writerow, logger, try_except, bind, get,
    modify, raise, ret.
  destruct (disk_fault env (csv_opens w)) as [[msg | msg fragment] |];
    reflexivity.
Qed.

Lemma speak_guarded_eq (env : Env) (reply : string) (w : World) :
  try_except (speak env reply) (fun e => logger ERROR (MsgTtsFailed e)) w =
  (Return tt,
   match tts_fault env (tts_calls w) with
   | None => emit (EvSpeak reply) (set_tts_calls (S (tts_calls w)) w)
   | Some msg =>
       emit (EvLog ERROR (MsgTtsFailed (RuntimeError msg)))
         (set_tts_calls (S (tts_calls w)) w)
   end).
Proof.
  unfold speak, logger. rewrite try_except_eq, !bind_eq. cbn [get].
  rewrite bind_eq. cbn [modify].
  destruct (tts_fault env (tts_calls w)); reflexivity.
Qed.

(** ** The reaction to a recognised text *)
Section React.

Variables (env : Env) (cfg : Config).
Hypothesis replies_nonempty : REPLIES cfg <> [].

(** A text that contains the phrase: the method returns normally, the
    counter advances by one, and trace and file grow as described by
    [reaction_events] and [reaction_rows]. *)
Lemma react_fires (text : string) (w : World) :
  str_in (PHRASE cfg) text = true ->
  exists w',
    react env cfg text w = (Return tt, w')
    /\ count w' = count w + 1
    /\ running w' = running w
    /\ audio_queue w' = audio_queue w
    /\ csv_file w' = csv_file w ++ reaction_rows env cfg w text
    /\ trace w' = trace w ++ reaction_events env cfg w text.
Proof.
  intros Hin. unfold react. rewrite Hin.
  rewrite bind_eq, (get_next_reply_eq cfg replies_nonempty). cbv beta iota.
  rewrite bind_eq, logger_eq. cbv beta iota.
  rewrite bind_eq, modify_eq. cbv beta iota.
  rewrite bind_eq, speak_guarded_eq. cbv beta iota.
  rewrite try_except_eq, log_interaction_eq.
  unfold reaction_rows, reaction_events.
  cbn [emit set_count set_tts_calls set_csv_opens set_csv_file
       count running audio_queue csv_file csv_opens tts_calls trace].
  destruct (tts_fault env (tts_calls w));
    cbn [emit set_count set_tts_calls set_csv_opens set_csv_file
         count running audio_queue csv_file csv_opens tts_calls trace];
    destruct (disk_fault env (csv_opens w)) as [[msg | msg fragment] |];
    eexists; (split; [reflexivity |]);
    cbn [emit set_count set_tts_calls set_csv_opens set_csv_file set_csv_torn
         count running audio_queue csv_file csv_opens tts_calls trace
         fault_msg];
    rewrite <- ?app_assoc, ?app_nil_r; repeat split; reflexivity.
Qed.

(** The same reaction seen from the file: it passes through the [with open]
    block exactly once, starts the speech thread exactly once, and leaves a
    fragment exactly when the write failed after a successful [open]. *)
Lemma react_fires_file (text : string) (w : World) :
  str_in (PHRASE cfg) text = true ->
  csv_opens (snd (react env cfg text w)) = S (csv_opens w)
  /\ tts_calls (snd (react env cfg text w)) = S (tts_calls w)
  /\ csv_torn (snd (react env cfg text w))
     = csv_torn w ++ reaction_torn env w.
Proof.
  intros Hin. unfold react. rewrite Hin.
  rewrite bind_eq, (get_next_reply_eq cfg replies_nonempty). cbv beta iota.
  rewrite bind_eq, logger_eq. cbv beta iota.
  rewrite bind_eq, modify_eq. cbv beta iota.
  rewrite bind_eq, speak_guarded_eq. cbv beta iota.
  rewrite try_except_eq, log_interaction_eq.
  unfold reaction_torn.
  cbn [emit set_count set_tts_calls set_csv_opens set_csv_file
       count running audio_queue csv_file csv_opens tts_calls trace].
  destruct (tts_fault env (tts_calls w));
    cbn [emit set_count set_tts_calls set_csv_opens set_csv_file
         count running audio_queue csv_file csv_torn csv_opens tts_calls trace];
    destruct (disk_fault env (csv_opens w)) as [[msg | msg fragment] |];
    cbn [snd emit set_count set_tts_calls set_csv_opens set_csv_file
         set_csv_torn count running audio_queue csv_file csv_torn csv_opens
         tts_calls trace];
    rewrite ?app_nil_r; repeat split; reflexivity.
Qed.

(** A text that does not contain the phrase leaves no effect. *)
Lemma react_silent (text : string) (w : World) :
  str_in (PHRASE cfg) text = false ->
  react env cfg text w = (Return tt, w).
Proof. intros Hin. unfold react. rewrite Hin. reflexivity. Qed.

End React.

(** ** The retry loop *)
Section Retry.

Variables (env : Env) (cfg : Config) (audio : Audio).

Ltac loop_head :=
  cbn [recognize_loop]; rewrite bind_eq, modify_eq; cbv beta iota.

Lemma loop_text (k : Z) (rest : list Z) (t s : string) (w : World) :
  recognize_google env audio k = Text s ->
  recognize_loop env cfg audio (k :: rest) t w =
  (Return (Some (lower s)),
   emits [EvRecognize audio k; EvLog DEBUG (MsgRecognized k (lower s))] w).
Proof.
  intros H. loop_head. rewrite H, bind_eq, logger_eq. cbv beta iota.
  rewrite !emit_emits, emits_emits. reflexivity.
Qed.

Lemma loop_unknown (k : Z) (rest : list Z) (t : string) (w : World) :
  recognize_google env audio k = Unknown ->
  recognize_loop env cfg audio (k :: rest) t w =
  (Return None,
   emits [EvRecognize audio k; EvLog WARNING MsgNotUnderstood] w).
Proof.
  intros H. loop_head. rewrite H, bind_eq, logger_eq. cbv beta iota.
  rewrite !emit_emits, emits_emits. reflexivity.
Qed.

Lemma loop_crash (k : Z) (rest : list Z) (t msg : string) (w : World) :
  recognize_google env audio k = Crash msg ->
  recognize_loop env cfg audio (k :: rest) t w =
  (Raise (RuntimeError msg), emits [EvRecognize audio k] w).
Proof. intros H. loop_head. rewrite H. reflexivity. Qed.

(** A transient failure before the last allowed attempt: log, sleep one
    second, go round again. *)
Lemma loop_transient_retry (k : Z) (rest : list Z) (t : string) (w : World) :
  is_request (recognize_google env audio k) = true ->
  k <> MAX_RETRY cfg ->
  recognize_loop env cfg audio (k :: rest) t w =
  recognize_loop env cfg audio rest t (emits (backoff_events env audio [k]) w).
Proof.
  intros H Hk. loop_head.
  cbn [backoff_events flat_map app].
  destruct (recognize_google env audio k); try discriminate.
  rewrite bind_eq, logger_eq. cbv beta iota.
  destruct (k =? MAX_RETRY cfg) eqn:E; [apply Z.eqb_eq in E; contradiction |].
  rewrite bind_eq, modify_eq. cbv beta iota.
  rewrite !emit_emits, !emits_emits. reflexivity.
Qed.

(** A transient failure on the last allowed attempt: log and return, with
    no sleep. *)
Lemma loop_transient_last (k : Z) (rest : list Z) (t : string) (w : World) :
  is_request (recognize_google env audio k) = true ->
  k = MAX_RETRY cfg ->
  recognize_loop env cfg audio (k :: rest) t w =
  (Return None,
   emits [EvRecognize audio k;
          EvLog ERROR (MsgApiError k
            (RequestError (request_msg (recognize_google env audio k))))] w).
Proof.
  intros H Hk. loop_head.
  destruct (recognize_google env audio k); try discriminate.
  rewrite bind_eq, logger_eq. cbv beta iota.
  rewrite (proj2 (Z.eqb_eq _ _) Hk).
  rewrite !emit_emits, emits_emits. reflexivity.
Qed.

Lemma loop_prefix (l rest : list Z) (t : string) : forall w,
  Forall (fun k => is_request (recognize_google env audio k) = true
                   /\ k <> MAX_RETRY cfg) l ->
  recognize_loop env cfg audio (l ++ rest) t w =
  recognize_loop env cfg audio rest t (emits (backoff_events env audio l) w).
Proof.
  induction l as [| k l IH]; intros w Hall.
  - cbn [app backoff_events flat_map]. rewrite emits_nil. reflexivity.
  - inversion Hall as [| ? ? [Hr Hk] Hl]; subst.
    rewrite <- app_comm_cons, (loop_transient_retry _ _ _ _ Hr Hk).
    rewrite (IH _ Hl), emits_emits. reflexivity.
Qed.

Lemma range_from_bounds (x s : Z) (j : nat) :
  In x (range_from s j) -> s <= x < s + Z.of_nat j.
Proof.
  revert s. induction j as [| j IH]; intros s; cbn [range_from In].
  - contradiction.
  - intros [<- | H]; [lia | apply IH in H; lia].
Qed.

Lemma range1_split (n k : Z) :
  1 <= k <= n ->
  range1 n = range_from 1 (Z.to_nat (k - 1))
             ++ k :: range_from (k + 1) (Z.to_nat (n - k)).
Proof.
  intros Hk. unfold range1.
  replace (Z.to_nat n) with (Z.to_nat (k - 1) + S (Z.to_nat (n - k)))%nat by lia.
  rewrite range_from_app. cbn [range_from].
  replace (1 + Z.of_nat (Z.to_nat (k - 1))) with k by lia.
  reflexivity.
Qed.

(** The attempts before [k] all fail transiently: the loop arrives at
    attempt [k] having backed off once per earlier attempt. *)
Lemma loop_reaches (k : Z) (t : string) (w : World) :
  1 <= k <= MAX_RETRY cfg ->
  (forall j, 1 <= j < k -> is_request (recognize_google env audio j) = true) ->
  recognize_loop env cfg audio (range1 (MAX_RETRY cfg)) t w =
  recognize_loop env cfg audio
    (k :: range_from (k + 1) (Z.to_nat (MAX_RETRY cfg - k))) t
    (emits (backoff_events env audio (range_from 1 (Z.to_nat (k - 1)))) w).
Proof.
  intros Hk Hreq. rewrite (range1_split _ k Hk). apply loop_prefix.
  apply Forall_forall. intros x Hx. apply range_from_bounds in Hx.
  split; [apply Hreq |]; lia.
Qed.

End Retry.

(** ** Claims about one snippet *)

(** C5.  A snippet whose transcription ends in "no speech detected" at
    attempt [k], after transient failures on the attempts before it, makes
    the worker return at once: attempt [k] is the last call to the service,
    no row is written and the file is not even opened, no speech is
    requested, no reply is printed and the reply counter keeps its value. *)
Theorem unrecognized_aborts :
  forall (env : Env) (cfg : Config) (audio : Audio) (w : World) (k : Z),
    1 <= k <= MAX_RETRY cfg ->
    (forall j, 1 <= j < k -> is_request (recognize_google env audio j) = true) ->
    recognize_google env audio k = Unknown ->
    exists w',
      _process_audio env cfg audio w = (Return tt, w')
      /\ csv_file w' = csv_file w
      /\ csv_opens w' = csv_opens w
      /\ tts_calls w' = tts_calls w
      /\ speech_calls (trace w') = speech_calls (trace w)
      /\ printed (trace w') = printed (trace w)
      /\ count w' = count w
      /\ attempts_made (trace w') =
           attempts_made (trace w) ++ range_from 1 (Z.to_nat (k - 1)) ++ [k].
Proof.
  intros env cfg audio w k Hk Hreq Hun.
  unfold _process_audio.
  rewrite bind_eq, (loop_reaches env cfg audio k "" w Hk Hreq).
  rewrite (loop_unknown env cfg audio k _ _ _ Hun), emits_emits.
  cbv beta iota.
  destruct (backoff_events_obs env audio (range_from 1 (Z.to_nat (k - 1))))
    as (Hs & Hp & _ & Ha).
  eexists. split; [reflexivity |].
  cbn [emits csv_file csv_opens tts_calls count trace].
  rewrite !speech_calls_app, !printed_app, !attempts_made_app, Hs, Hp, Ha.
  cbn. rewrite !app_nil_r. repeat split; reflexivity.
Qed.

Lemma unrecognized_aborts_witness :
  exists w',
    _process_audio Samples.env_mumble default_config 0%nat initial_world
      = (Return tt, w')
    /\ csv_file w' = []
    /\ csv_opens w' = 0%nat
    /\ tts_calls w' = 0%nat
    /\ speech_calls (trace w') = []
    /\ printed (trace w') = []
    /\ count w' = 0
    /\ attempts_made (trace w') = [1; 2].
Proof.
  apply (unrecognized_aborts Samples.env_mumble default_config 0%nat
           initial_world 2).
  - cbn. lia.
  - intros j Hj. replace j with 1 by lia. reflexivity.
  - reflexivity.
Defined.

(** C4.  With [MAX_RETRY = 3] and transient errors on attempts 1 and 2, the
    worker has slept one second after each of them and makes its third
    call.  If that call returns a text containing the phrase, exactly one
    reply is assigned and printed and exactly one row is appended to the
    file.  If that call fails transiently too, it was the last allowed
    attempt: the worker returns without a third sleep, with no reply, no
    row and the counter unchanged. *)
Theorem transient_retry_boundary :
  forall (env : Env) (cfg : Config) (audio : Audio) (w : World),
    MAX_RETRY cfg = 3 ->
    REPLIES cfg <> [] ->
    is_request (recognize_google env audio 1) = true ->
    is_request (recognize_google env audio 2) = true ->
    disk_fault env (csv_opens w) = None ->
    exists r w',
      _process_audio env cfg audio w = (r, w')
      /\ attempts_made (trace w') = attempts_made (trace w) ++ [1; 2; 3]
      /\ sleeps (trace w') = sleeps (trace w) ++ [1; 1]
      /\ match recognize_google env audio 3 with
         | Text s =>
             if str_in (PHRASE cfg) (lower s) then
               r = Return tt
               /\ printed (trace w') =
                 printed (trace w) ++ [reply_at cfg (count w)]
               /\ speech_calls (trace w') =
                    speech_calls (trace w)
                    ++ match tts_fault env (tts_calls w) with
                       | None => [reply_at cfg (count w)]
                       | Some _ => []
                       end
               /\ csv_file w' =
                    csv_file w
                    ++ [(now env (csv_opens w), lower s, reply_at cfg (count w))]
               /\ count w' = count w + 1
             else True
         | Request _ =>
             r = Return tt
             /\ printed (trace w') = printed (trace w)
             /\ speech_calls (trace w') = speech_calls (trace w)
             /\ csv_file w' = csv_file w
             /\ count w' = count w
         | _ => True
         end.
Proof.
  intros env cfg audio w Hmax Hne H1 H2 Hdisk.
  assert (Hk : 1 <= 3 <= MAX_RETRY cfg) by lia.
  assert (Hreq : forall j, 1 <= j < 3 ->
                   is_request (recognize_google env audio j) = true).
  { intros j Hj. assert (j = 1 \/ j = 2) as [-> | ->] by lia; assumption. }
  unfold _process_audio.
  rewrite bind_eq, (loop_reaches env cfg audio 3 "" w Hk Hreq).
  change (Z.to_nat (3 - 1)) with 2%nat. cbn [range_from Z.add Pos.add Pos.succ].
  destruct (backoff_events_obs env audio [1; 2]) as (Hs & Hp & Hz & Ha).
  destruct (recognize_google env audio 3) as [s | | msg | msg] eqn:H3.
  - rewrite (loop_text env cfg audio 3 _ _ s _ H3), emits_emits. cbv beta iota.
    destruct (str_in (PHRASE cfg) (lower s)) eqn:Hin.
    + match goal with |- context [react env cfg (lower s) ?w1] =>
        destruct (react_fires env cfg Hne (lower s) w1 Hin)
          as (w' & Hrun & Hc & _ & _ & Hcsv & Htr) end.
      exists (Return tt), w'. split; [exact Hrun |].
      rewrite Htr, Hcsv, Hc. unfold reaction_rows, reaction_events.
      cbn [emits csv_file csv_opens tts_calls count trace]. rewrite Hdisk.
      rewrite !attempts_made_app, !sleeps_app, !printed_app,
        !speech_calls_app, Ha, Hz, Hp, Hs.
      destruct (tts_fault env (tts_calls w)); cbn; rewrite ?app_nil_r;
        repeat split; reflexivity.
    + rewrite (react_silent env cfg _ _ Hin). do 2 eexists. split; [reflexivity |].
      cbn [emits trace]. rewrite !attempts_made_app, !sleeps_app, Ha, Hz.
      cbn. rewrite ?app_nil_r. repeat split; reflexivity.
  - rewrite (loop_unknown env cfg audio 3 _ _ _ H3), emits_emits. cbv beta iota.
    do 2 eexists. split; [reflexivity |].
    cbn [emits trace]. rewrite !attempts_made_app, !sleeps_app, Ha, Hz.
    cbn. rewrite ?app_nil_r. repeat split; reflexivity.
  - assert (Hr3 : is_request (recognize_google env audio 3) = true)
      by (rewrite H3; reflexivity).
    rewrite (loop_transient_last env cfg audio 3 _ _ _ Hr3 (eq_sym Hmax)).
    rewrite emits_emits. cbv beta iota.
    do 2 eexists. split; [reflexivity |].
    cbn [emits csv_file count trace].
    rewrite !attempts_made_app, !sleeps_app, !printed_app, !speech_calls_app.
    rewrite Ha, Hz, Hp, Hs.
    cbn. rewrite ?app_nil_r. repeat split; reflexivity.
  - rewrite (loop_crash env cfg audio 3 _ _ _ _ H3), emits_emits. cbv beta iota.
    do 2 eexists. split; [reflexivity |].
    cbn [emits trace]. rewrite !attempts_made_app, !sleeps_app, Ha, Hz.
    cbn. rewrite ?app_nil_r. repeat split; reflexivity.
Qed.

Lemma transient_retry_boundary_witness :
  exists r w',
    _process_audio Samples.env_flaky default_config 0%nat initial_world = (r, w')
    /\ attempts_made (trace w') = [1; 2; 3]
    /\ sleeps (trace w') = [1; 1]
    /\ r = Return tt
    /\ printed (trace w') = ["Vaibhav"]
    /\ speech_calls (trace w') = ["Vaibhav"]
    /\ csv_file w' = [("2024-05-01T12:00:00", "who is he", "Vaibhav")]
    /\ count w' = 1.
Proof.
  apply (transient_retry_boundary Samples.env_flaky default_config 0%nat
           initial_world); first [reflexivity | discriminate].
Defined.

(** C2, as stated, fails.  The service returns [" Who is he "]; the text
    that reaches the phrase check and the CSV row is [" who is he "], with
    its surrounding spaces, not the lowercased and trimmed ["who is he"]. *)
Lemma trimming_not_performed :
  fst (recognize_loop Samples.env_padded default_config 0%nat
         (range1 (MAX_RETRY default_config)) "" initial_world)
    = Return (Some " who is he ")
  /\ Spec.normalize " Who is he " = "who is he"
  /\ fst (recognize_loop Samples.env_padded default_config 0%nat
            (range1 (MAX_RETRY default_config)) "" initial_world)
       <> Return (Some (Spec.normalize " Who is he "))
  /\ csv_file (snd (_process_audio Samples.env_padded default_config 0%nat
                      initial_world))
       = [("2024-05-01T12:00:00", " who is he ", "Vaibhav")].
Proof.
  repeat split; try reflexivity.
  vm_compute. discriminate.
Qed.

(** C2, amended.  For a snippet transcribed successfully at attempt [k]
    (after transient failures before it), the text is lowercased and nothing
    else: the loop hands [lower s] to the phrase check, and the worker
    behaves as the reaction to exactly that text, surrounding whitespace
    included. *)
Theorem normalisation_is_lowercasing :
  forall (env : Env) (cfg : Config) (audio : Audio) (w : World) (k : Z)
         (s : string),
    1 <= k <= MAX_RETRY cfg ->
    (forall j, 1 <= j < k -> is_request (recognize_google env audio j) = true) ->
    recognize_google env audio k = Text s ->
    let w1 :=
      emits (backoff_events env audio (range_from 1 (Z.to_nat (k - 1)))
             ++ [EvRecognize audio k; EvLog DEBUG (MsgRecognized k (lower s))])
            w in
    recognize_loop env cfg audio (range1 (MAX_RETRY cfg)) "" w
      = (Return (Some (lower s)), w1)
    /\ _process_audio env cfg audio w = react env cfg (lower s) w1.
Proof.
  intros env cfg audio w k s Hk Hreq Htext w1.
  assert (Hloop : recognize_loop env cfg audio (range1 (MAX_RETRY cfg)) "" w
                  = (Return (Some (lower s)), w1)).
  { rewrite (loop_reaches env cfg audio k "" w Hk Hreq).
    rewrite (loop_text env cfg audio k _ _ s _ Htext), emits_emits.
    reflexivity. }
  split; [exact Hloop |].
  unfold _process_audio. rewrite bind_eq, Hloop. reflexivity.
Qed.

Lemma normalisation_is_lowercasing_witness :
  let w1 :=
    emits [EvRecognize 0%nat 1; EvLog DEBUG (MsgRecognized 1 " who is he ")]
          initial_world in
  recognize_loop Samples.env_padded default_config 0%nat
      (range1 (MAX_RETRY default_config)) "" initial_world
    = (Return (Some " who is he "), w1)
  /\ _process_audio Samples.env_padded default_config 0%nat initial_world
     = react Samples.env_padded default_config " who is he " w1.
Proof.
  apply (normalisation_is_lowercasing Samples.env_padded default_config 0%nat
           initial_world 1 " Who is he ").
  - cbn. lia.
  - intros j Hj. lia.
  - reflexivity.
Defined.

(** C9.  The trigger test is substring membership.  With the phrase
    "who is he", a snippet transcribed as "i wonder who is he today" is not
    equal to the phrase, yet the worker assigns and prints a reply and the
    counter advances. *)
Theorem trigger_is_substring :
  forall (env : Env) (cfg : Config) (audio : Audio) (w : World) (s : string),
    PHRASE cfg = "who is he" ->
    REPLIES cfg <> [] ->
    1 <= MAX_RETRY cfg ->
    recognize_google env audio 1 = Text s ->
    lower s = "i wonder who is he today" ->
    lower s <> PHRASE cfg
    /\ (forall t, str_in (PHRASE cfg) t = true <->
                  exists a b, t = (a ++ PHRASE cfg ++ b)%string)
    /\ exists w',
         _process_audio env cfg audio w = (Return tt, w')
         /\ printed (trace w') = printed (trace w) ++ [reply_at cfg (count w)]
         /\ count w' = count w + 1.
Proof.
  intros env cfg audio w s Hphrase Hne Hmax Htext Hlow.
  split; [rewrite Hlow, Hphrase; discriminate |].
  split; [intros t; apply str_in_iff |].
  assert (Hk : 1 <= 1 <= MAX_RETRY cfg) by lia.
  assert (Hreq : forall j, 1 <= j < 1 ->
                   is_request (recognize_google env audio j) = true)
    by (intros j Hj; lia).
  unfold _process_audio.
  rewrite bind_eq, (loop_reaches env cfg audio 1 "" w Hk Hreq).
  rewrite (loop_text env cfg audio 1 _ _ s _ Htext), emits_emits.
  cbv beta iota.
  assert (Hin : str_in (PHRASE cfg) (lower s) = true)
    by (rewrite Hlow, Hphrase; reflexivity).
  match goal with |- context [react env cfg (lower s) ?w1] =>
    destruct (react_fires env cfg Hne (lower s) w1 Hin)
      as (w' & Hrun & Hc & _ & _ & _ & Htr) end.
  exists w'. split; [exact Hrun |].
  rewrite Htr, Hc. unfold reaction_events.
  cbn [emits csv_opens tts_calls count trace].
  rewrite !printed_app.
  destruct (tts_fault env (tts_calls w)), (disk_fault env (csv_opens w));
    cbn; rewrite ?app_nil_r; split; reflexivity.
Qed.

Lemma trigger_is_substring_witness :
  "i wonder who is he today" <> "who is he"
  /\ (forall t, str_in "who is he" t = true <->
                exists a b, t = (a ++ "who is he" ++ b)%string)
  /\ exists w',
       _process_audio Samples.env_sentence default_config 0%nat initial_world
         = (Return tt, w')
       /\ printed (trace w') = ["Vaibhav"]
       /\ count w' = 1.
Proof.
  apply (trigger_is_substring Samples.env_sentence default_config 0%nat
           initial_world "i wonder who is he today");
    first [reflexivity | discriminate | cbn; lia].
Defined.

(** ** The bounded queue *)

(** C6.  On a queue that holds [QUEUE_MAXSIZE] snippets (or more),
    [put_nowait] raises [queue.Full] at once and changes nothing; the
    capture callback catches it, logs one warning and returns, so the
    snippet is dropped, nothing is retried, and the queue keeps exactly the
    contents and order it had. *)
Theorem full_queue_drops :
  forall (cfg : Config) (w : World) (audio : Audio),
    0 < QUEUE_MAXSIZE cfg ->
    QUEUE_MAXSIZE cfg <= len (audio_queue w) ->
    put_nowait cfg audio w = (Raise QueueFull, w)
    /\ callback cfg audio w = (Return tt, emit (EvLog WARNING MsgQueueFull) w)
    /\ audio_queue (snd (callback cfg audio w)) = audio_queue w
    /\ trace (snd (callback cfg audio w)) =
         trace w ++ [EvLog WARNING MsgQueueFull].
Proof.
  intros cfg w audio Hpos Hfull.
  assert (Hput : put_nowait cfg audio w = (Raise QueueFull, w)).
  { unfold put_nowait. rewrite bind_eq. cbn [get].
    rewrite (proj2 (Z.ltb_lt _ _) Hpos), (proj2 (Z.leb_le _ _) Hfull).
    reflexivity. }
  assert (Hcb : callback cfg audio w =
                (Return tt, emit (EvLog WARNING MsgQueueFull) w)).
  { unfold callback. rewrite try_except_eq, bind_eq, Hput. reflexivity. }
  rewrite Hcb. repeat split; assumption.
Qed.

Lemma full_queue_drops_witness :
  put_nowait default_config 9%nat Samples.full_world
    = (Raise QueueFull, Samples.full_world)
  /\ callback default_config 9%nat Samples.full_world
     = (Return tt, emit (EvLog WARNING MsgQueueFull) Samples.full_world)
  /\ audio_queue (snd (callback default_config 9%nat Samples.full_world))
     = audio_queue Samples.full_world
  /\ trace (snd (callback default_config 9%nat Samples.full_world))
     = trace Samples.full_world ++ [EvLog WARNING MsgQueueFull].
Proof.
  apply (full_queue_drops default_config Samples.full_world 9%nat).
  - reflexivity.
  - vm_compute. discriminate.
Defined.

(** Below capacity the snippet goes to the back of the queue. *)
Lemma queue_accepts (cfg : Config) (w : World) (audio : Audio) :
  len (audio_queue w) < QUEUE_MAXSIZE cfg ->
  callback cfg audio w =
  (Return tt,
   emit (EvLog DEBUG MsgQueued) (set_audio_queue (audio_queue w ++ [audio]) w)).
Proof.
  intros Hroom. unfold callback, put_nowait.
  rewrite try_except_eq, !bind_eq. cbn [get].
  rewrite (proj2 (Z.leb_gt _ _) Hroom), andb_false_r.
  reflexivity.
Qed.

(** ** The log sink *)

(** A fragment left at the end of the file comes last in the layout. *)
Lemma layout_from_fragment (rows : list Row) : forall (i : nat)
    (torn : list (nat * string)) (fragment : string),
  layout_from i rows (torn ++ [((i + List.length rows)%nat, fragment)])
  = layout_from i rows torn ++ [inr fragment].
Proof.
  induction rows as [| r rows IH]; intros i torn fragment;
    cbn [layout_from List.length].
  - rewrite Nat.add_0_r, filter_app, map_app, !app_nil_r.
    cbn [filter fst]. rewrite Nat.eqb_refl. reflexivity.
  - rewrite filter_app. cbn [filter fst].
    replace (Nat.eqb (i + S (List.length rows)) i) with false
      by (symmetry; apply Nat.eqb_neq; lia).
    rewrite app_nil_r.
    replace (i + S (List.length rows))%nat with (S i + List.length rows)%nat
      by lia.
    rewrite IH, <- app_assoc. reflexivity.
Qed.

(** A record appended to the file comes last in the layout, directly after
    whatever the file ended with. *)
Lemma layout_from_row (rows : list Row) : forall (i : nat)
    (torn : list (nat * string)) (r : Row),
  Forall (fun t => (fst t <= i + List.length rows)%nat) torn ->
  layout_from i (rows ++ [r]) torn = layout_from i rows torn ++ [inl r].
Proof.
  induction rows as [| r0 rows IH]; intros i torn r Hok;
    cbn [layout_from List.length app] in *.
  - assert (Hnone : filter (fun t => Nat.eqb (fst t) (S i)) torn = []).
    { clear - Hok. induction torn as [| t torn IHt]; [reflexivity |].
      inversion Hok as [| ? ? Ht Hrest]; subst. cbn [filter].
      replace (Nat.eqb (fst t) (S i)) with false
        by (symmetry; apply Nat.eqb_neq; lia).
      exact (IHt Hrest). }
    rewrite Hnone. cbn [map app]. rewrite !app_nil_r. reflexivity.
  - rewrite IH, <- app_assoc; [reflexivity |].
    eapply Forall_impl; [| exact Hok]. intros t Ht. cbn beta in *. lia.
Qed.

(** C8.  When one pass through the [with open] block of [log_interaction]
    fails, at [open] or later in the write or the close, the call still
    returns normally, has logged exactly one error and has gone through the
    block exactly once; no whole record was added, and after a failed write
    the file ends with the fragment that reached it.  The next call, whose
    pass succeeds, goes through the block once more and appends its own
    record in full and nothing else: the failed record is not written again,
    and the file is what it was, then the fragment if any, then the new
    record. *)
Theorem log_failure_is_contained :
  forall (env : Env) (w : World) (text1 reply1 text2 reply2 : string)
         (d : DiskFault),
    torn_ok w ->
    disk_fault env (csv_opens w) = Some d ->
    disk_fault env (S (csv_opens w)) = None ->
    exists w1 w2,
      log_interaction env text1 reply1 w = (Return tt, w1)
      /\ csv_file w1 = csv_file w
      /\ csv_torn w1 = csv_torn w ++ left_behind d (List.length (csv_file w))
      /\ csv_opens w1 = S (csv_opens w)
      /\ trace w1
         = trace w ++ [EvLog ERROR (MsgCsvError (OSError (fault_msg d)))]
      /\ count w1 = count w
      /\ log_interaction env text2 reply2 w1 = (Return tt, w2)
      /\ csv_file w2 =
           csv_file w ++ [(now env (S (csv_opens w)), text2, reply2)]
      /\ csv_torn w2 = csv_torn w1
      /\ csv_opens w2 = S (S (csv_opens w))
      /\ trace w2
         = trace w1
           ++ [EvLog DEBUG
                 (MsgLoggedRow (now env (S (csv_opens w))) text2 reply2)]
      /\ file_layout w2
         = file_layout w
           ++ map (fun t => inr (snd t))
                  (left_behind d (List.length (csv_file w)))
           ++ [inl (now env (S (csv_opens w)), text2, reply2)].
Proof.
  intros env w text1 reply1 text2 reply2 d Hwf Hfail Hok.
  exists (snd (log_interaction env text1 reply1 w)).
  exists (snd (log_interaction env text2 reply2
                 (snd (log_interaction env text1 reply1 w)))).
  destruct d as [msg | msg fragment];
    rewrite (log_interaction_eq env text1 reply1 w), Hfail;
    cbn [snd];
    rewrite log_interaction_eq;
    cbn [emit set_csv_opens set_csv_file set_csv_torn csv_file csv_torn
         csv_opens count trace left_behind fault_msg];
    rewrite Hok;
    unfold file_layout;
    cbn [emit set_csv_opens set_csv_file set_csv_torn csv_file csv_torn
         csv_opens count trace map snd app].
  - rewrite app_nil_r.
    rewrite (layout_from_row (csv_file w) 0 (csv_torn w) _ Hwf).
    repeat split; reflexivity.
  - rewrite layout_from_row.
    + pose proof (layout_from_fragment (csv_file w) 0 (csv_torn w) fragment)
        as Hlast.
      cbn [Nat.add] in Hlast. rewrite Hlast.
      repeat split; try reflexivity.
      rewrite <- app_assoc. reflexivity.
    + apply Forall_app. split; [exact Hwf |].
      constructor; [cbn; lia | constructor].
Qed.

Lemma log_failure_is_contained_witness :
  exists w1 w2,
    log_interaction Samples.env_torn_write "who is he" "Vaibhav" initial_world
      = (Return tt, w1)
    /\ csv_file w1 = []
    /\ csv_torn w1 = [] ++ [(0%nat, "2024-05-01T12:00:00,who")]
    /\ csv_opens w1 = 1%nat
    /\ trace w1 =
         [] ++ [EvLog ERROR (MsgCsvError (OSError "No space left on device"))]
    /\ count w1 = 0
    /\ log_interaction Samples.env_torn_write "who is he" "Manas" w1
       = (Return tt, w2)
    /\ csv_file w2 = [] ++ [("2024-05-01T12:00:00", "who is he", "Manas")]
    /\ csv_torn w2 = csv_torn w1
    /\ csv_opens w2 = 2%nat
    /\ trace w2
       = trace w1
         ++ [EvLog DEBUG
               (MsgLoggedRow "2024-05-01T12:00:00" "who is he" "Manas")]
    /\ file_layout w2
       = [] ++ [inr "2024-05-01T12:00:00,who"]
            ++ [inl ("2024-05-01T12:00:00", "who is he", "Manas")].
Proof.
  apply (log_failure_is_contained Samples.env_torn_write initial_world
           "who is he" "Vaibhav" "who is he" "Manas"
           (WriteFails "No space left on device" "2024-05-01T12:00:00,who")).
  - constructor.
  - reflexivity.
  - reflexivity.
Defined.

(** Calls of [log_interaction] keep the fragments within the file. *)
Lemma log_interaction_torn_ok (env : Env) (text reply : string) (w : World) :
  torn_ok w -> torn_ok (snd (log_interaction env text reply w)).
Proof.
  intros Hwf. rewrite log_interaction_eq. unfold torn_ok in *.
  destruct (disk_fault env (csv_opens w)) as [[msg | msg fragment] |];
    cbn [snd emit set_csv_opens set_csv_file set_csv_torn csv_file csv_torn].
  - exact Hwf.
  - apply Forall_app. split; [exact Hwf |].
    constructor; [cbn; lia | constructor].
  - eapply Forall_impl; [| exact Hwf]. intros t Ht. cbn beta in *.
    rewrite length_app. lia.
Qed.

(** The same through two workers run one after the other: the first
    snippet gets its reply but no row, the second gets both. *)
Example two_snippets_one_row :
  let w1 := snd (_process_audio Samples.env_disk_hiccup default_config 0%nat
                   initial_world) in
  let w2 := snd (_process_audio Samples.env_disk_hiccup default_config 1%nat
                   w1) in
  printed (trace w2) = ["Vaibhav"; "Manas"]
  /\ csv_file w1 = []
  /\ csv_file w2 = [("2024-05-01T12:00:00", "who is he", "Manas")].
Proof. repeat split; reflexivity. Qed.

(** ** voice.py against bibb.py *)

(** C10.  At every counter value [N], the name [voice.py] picks with
    [REPLIES[count % len(REPLIES)]] is the reply [_get_next_reply] of
    [bibb.py] returns in a world whose counter is [N]; both then hold
    [N + 1]; the two reply lists are the same list. *)
Theorem voice_agrees_with_bibb :
  forall (w : World) (out : list Voice.Out) (s : string),
    let N := count w in
    exists (name : string) (w' : World),
      Voice.REPLIES = REPLIES default_config
      /\ Voice.pick N = inr name
      /\ _get_next_reply default_config w = (Return name, w')
      /\ count w' = N + 1
      /\ Voice.main_turn (Text s) (Voice.mkState N out) =
           inr (if str_in "who is he" (lower s)
                then Voice.mkState (N + 1)
                       (out ++ [Voice.OutListening; Voice.OutName name])
                else Voice.mkState N (out ++ [Voice.OutListening])).
Proof.
  intros w out s N.
  assert (Hne : REPLIES default_config <> []) by discriminate.
  assert (Hpick : Voice.pick N = inr (reply_at default_config N)).
  { unfold Voice.pick, mod_.
    change (len Voice.REPLIES =? 0) with false. cbv iota.
    apply (getitem_mod (REPLIES default_config) N "" Hne). }
  exists (reply_at default_config N). eexists.
  split; [reflexivity |].
  split; [exact Hpick |].
  split; [apply (get_next_reply_eq default_config Hne) |].
  split; [reflexivity |].
  unfold Voice.main_turn, Voice.listen_for_who_is_he.
  destruct (str_in "who is he" (lower s)).
  - cbn [Voice.count Voice.print Voice.stdout]. rewrite Hpick.
    cbn [Voice.count Voice.print Voice.stdout].
    rewrite <- app_assoc. reflexivity.
  - reflexivity.
Qed.

(** ** Overlapping calls of the reply cycler *)

(** A thread left alone for six steps does what [_get_next_reply] does. *)
Lemma run_alone_is_get_next_reply (cfg : Config) (w : World) :
  Race.run_alone cfg 6 Race.L295 w =
  (Race.Done (fst (_get_next_reply cfg w)), snd (_get_next_reply cfg w)).
Proof.
  unfold _get_next_reply, bind, get, lift, logger, modify, ret, raise.
  cbn [Race.run_alone Race.step].
  destruct (mod_ (count w) (len (REPLIES cfg))) as [e | idx]; [reflexivity |].
  cbn [Race.step].
  destruct (getitem (REPLIES cfg) idx) as [e | reply]; reflexivity.
Qed.

(** C3.  [_get_next_reply] is not one atomic step.  Two workers that
    detect the phrase at counter 0 and both read the counter before either
    writes it are both answered "Vaibhav": the counter value 0 is used
    twice and "Manas" is skipped, whereas the same two calls made one after
    the other return "Vaibhav" and "Manas".  When both workers load the
    counter on line 298 before either stores it, one increment is lost as
    well and the counter ends at 1. *)
Theorem overlapping_calls_repeat_a_reply :
  let start := ([Race.L295; Race.L295], initial_world) in
  let done r := Race.Done (Return r) in
  (fst (Race.run default_config Race.both_read_first start)
     = [done "Vaibhav"; done "Vaibhav"]
   /\ count (snd (Race.run default_config Race.both_read_first start)) = 2)
  /\ (fst (Race.run default_config Race.both_load_first start)
        = [done "Vaibhav"; done "Vaibhav"]
      /\ count (snd (Race.run default_config Race.both_load_first start)) = 1)
  /\ (fst (Race.run default_config Race.one_after_the_other start)
        = [done "Vaibhav"; done "Manas"]
      /\ count (snd (Race.run default_config Race.one_after_the_other start)) = 2)
  /\ fst (next_replies default_config 2 initial_world)
       = Return ["Vaibhav"; "Manas"].
Proof. repeat split; reflexivity. Qed.

(** ** The dispatch loop and the signal handler *)

(** The handler only logs and clears the flag; the next test of the loop
    condition then ends the loop without taking a snippet or starting a
    worker. *)
Lemma loop_ends_after_signal (env : Env) (signum : Z) (w : World) :
  let w1 := snd (_handler signum w) in
  running w1 = false
  /\ audio_queue w1 = audio_queue w
  /\ process_queue_turn env w1
     = (Return false, emit (EvLog DEBUG MsgLoopExit) w1)
  /\ spawned (trace (snd (process_queue_turn env w1))) = spawned (trace w).
Proof.
  cbn. unfold spawned. rewrite !flat_map_app. cbn. rewrite !app_nil_r.
  repeat split; reflexivity.
Qed.

(** While the flag is set, a turn takes the snippet at the front of the
    queue, if there is one, and starts its worker; when the thread cannot
    be started the exception leaves the loop and the snippet is gone. *)
Lemma loop_turn_running (env : Env) (w : World) :
  running w = true ->
  process_queue_turn env w =
  match audio_queue w with
  | [] => (Return true, w)
  | a :: q =>
      match start_fault env a with
      | None => (Return true, emit (EvSpawn a) (set_audio_queue q w))
      | Some msg => (Raise (RuntimeError msg), set_audio_queue q w)
      end
  end.
Proof.
  intros Hrun.
  unfold process_queue_turn, queue_get, start_worker, try_except, bind, get,
    modify, raise, ret.
  rewrite Hrun.
  destruct (audio_queue w) as [| a q]; [reflexivity |].
  destruct (start_fault env a); reflexivity.
Qed.

(** One evaluation of the loop, in every case. *)
Lemma turn_eq (env : Env) (w : World) :
  process_queue_turn env w =
  if running w then
    match audio_queue w with
    | [] => (Return true, w)
    | a :: q =>
        match start_fault env a with
        | None => (Return true, emit (EvSpawn a) (set_audio_queue q w))
        | Some msg => (Raise (RuntimeError msg), set_audio_queue q w)
        end
    end
  else (Return false, emit (EvLog DEBUG MsgLoopExit) w).
Proof.
  destruct (running w) eqn:Hrun.
  - apply loop_turn_running. exact Hrun.
  - unfold process_queue_turn. rewrite bind_eq. cbn [get]. rewrite Hrun.
    reflexivity.
Qed.

(** ** The process after a signal *)
Section Frame.
Import Pipeline Process.

Lemma keeps_refl (w : World) : keeps w w.
Proof. split; reflexivity. Qed.

Lemma keeps_trans (w1 w2 w3 : World) : keeps w1 w2 -> keeps w2 w3 -> keeps w1 w3.
Proof. intros [H1 H2] [H3 H4]. split; congruence. Qed.

Lemma Keeps_ret {A : Type} (a : A) : Keeps (ret a).
Proof. intro w. apply keeps_refl. Qed.

Lemma Keeps_raise {A : Type} (e : exn) : Keeps (@raise A e).
Proof. intro w. apply keeps_refl. Qed.

Lemma Keeps_get {A : Type} (f : World -> A) : Keeps (get f).
Proof. intro w. apply keeps_refl. Qed.

Lemma Keeps_lift {A : Type} (r : exn + A) : Keeps (lift r).
Proof. destruct r; intro w; apply keeps_refl. Qed.

Lemma Keeps_bind {A B : Type} (m : M A) (k : A -> M B) :
  Keeps m -> (forall a, Keeps (k a)) -> Keeps (bind m k).
Proof.
  intros Hm Hk w. rewrite bind_eq. specialize (Hm w).
  destruct (m w) as [[a | e] w1]; cbn [snd] in *; [| exact Hm].
  eapply keeps_trans; [exact Hm | apply Hk].
Qed.

Lemma Keeps_try_except {A : Type} (m : M A) (h : exn -> M A) :
  Keeps m -> (forall e, Keeps (h e)) -> Keeps (try_except m h).
Proof.
  intros Hm Hh w. rewrite try_except_eq. specialize (Hm w).
  destruct (m w) as [[a | e] w1]; cbn [snd] in *; [exact Hm |].
  eapply keeps_trans; [exact Hm | apply Hh].
Qed.

Lemma Keeps_emit (e : Event) : spawned [e] = [] -> Keeps (modify (emit e)).
Proof.
  intros He w. split; [reflexivity |].
  cbn [snd modify emit trace]. unfold spawned in *.
  rewrite flat_map_app, He. apply app_nil_r.
Qed.

Lemma Keeps_logger (lvl : Level) (m : Msg) : Keeps (logger lvl m).
Proof. apply Keeps_emit. reflexivity. Qed.

Lemma Keeps_field (f : World -> World) :
  (forall w, running (f w) = running w) ->
  (forall w, trace (f w) = trace w) ->
  Keeps (modify f).
Proof.
  intros Hr Ht w. split; cbn [snd modify]; [apply Hr | rewrite Ht; reflexivity].
Qed.

Ltac keeps_step :=
  first
    [ apply Keeps_bind; [| intro]
    | apply Keeps_try_except; [| intro]
    | apply Keeps_ret
    | apply Keeps_raise
    | apply Keeps_get
    | apply Keeps_lift
    | apply Keeps_logger
    | apply Keeps_emit; reflexivity
    | apply Keeps_field; intro; reflexivity
    | match goal with
      | |- Keeps (match ?x with _ => _ end) => destruct x
      end ].

Ltac keeps_all := repeat keeps_step.

Lemma Keeps_get_next_reply (cfg : Config) : Keeps (_get_next_reply cfg).
Proof. unfold _get_next_reply. keeps_all. Qed.

Lemma Keeps_log_interaction (env : Env) (text reply : string) :
  Keeps (log_interaction env text reply).
Proof. unfold log_interaction, csv_open, writerow. keeps_all. Qed.

Lemma Keeps_speak (env : Env) (text : string) : Keeps (speak env text).
Proof. unfold speak. keeps_all. Qed.

Lemma Keeps_react (env : Env) (cfg : Config) (text : string) :
  Keeps (react env cfg text).
Proof.
  unfold react.
  destruct (str_in (PHRASE cfg) text); [| apply Keeps_ret].
  apply Keeps_bind; [apply Keeps_get_next_reply | intro reply].
  apply Keeps_bind; [apply Keeps_logger | intros _].
  apply Keeps_bind; [apply Keeps_emit; reflexivity | intros _].
  apply Keeps_bind.
  - apply Keeps_try_except; [apply Keeps_speak | intro; apply Keeps_logger].
  - intros _.
    apply Keeps_try_except;
      [apply Keeps_log_interaction | intro; apply Keeps_logger].
Qed.

Lemma Keeps_recognize_loop (env : Env) (cfg : Config) (audio : Audio)
    (attempts : list Z) :
  forall t : string, Keeps (recognize_loop env cfg audio attempts t).
Proof.
  induction attempts as [| k rest IH]; intro t; cbn [recognize_loop].
  - apply Keeps_ret.
  - apply Keeps_bind; [apply Keeps_emit; reflexivity | intros _].
    destruct (recognize_google env audio k); keeps_all.
    apply IH.
Qed.

Lemma Keeps_process_audio (env : Env) (cfg : Config) (audio : Audio) :
  Keeps (_process_audio env cfg audio).
Proof.
  unfold _process_audio.
  apply Keeps_bind; [apply Keeps_recognize_loop | intros [t |]].
  - apply Keeps_react.
  - apply Keeps_ret.
Qed.

Lemma Keeps_workers_in_turn (env : Env) (cfg : Config) (audios : list Audio) :
  Keeps (workers_in_turn env cfg audios).
Proof.
  induction audios as [| a rest IH]; cbn [workers_in_turn].
  - apply Keeps_ret.
  - apply Keeps_bind; [| intros _; exact IH].
    apply Keeps_try_except; [apply Keeps_process_audio | intro; apply Keeps_ret].
Qed.

Lemma Keeps_callback (cfg : Config) (audio : Audio) : Keeps (callback cfg audio).
Proof. unfold callback, put_nowait. keeps_all. Qed.


Lemma deliver_cleared (cfg : Config) (s : Stimulus) (w : World) :
  running w = false ->
  running (snd (deliver cfg s w)) = false
  /\ spawned (trace (snd (deliver cfg s w))) = spawned (trace w).
Proof.
  intros Hrun. destruct s as [audio | signum]; cbn [deliver].
  - destruct (Keeps_callback cfg audio w) as [H1 H2].
    split; [rewrite H1; exact Hrun | exact H2].
  - split; [reflexivity |].
    cbn. unfold spawned. rewrite flat_map_app. apply app_nil_r.
Qed.

Lemma end_worker_daemon (a : Audio) (l : list Worker) :
  forallb daemon l = true -> forallb daemon (end_worker a l) = true.
Proof.
  induction l as [| k rest IH]; cbn [end_worker forallb]; [trivial |].
  intros H. apply andb_true_iff in H. destruct H as [Hk Hrest].
  destruct (is_worker a k); [exact Hrest |].
  cbn [forallb]. rewrite Hk. apply IH. exact Hrest.
Qed.

Lemma end_worker_perm (a : Audio) (l : list Worker) :
  existsb (is_worker a) l = true ->
  Permutation (a :: map snippet (end_worker a l)) (map snippet l).
Proof.
  induction l as [| k rest IH]; cbn [end_worker existsb map];
    [discriminate |].
  unfold is_worker at 1 3. destruct (Nat.eqb (snippet k) a) eqn:E.
  - intros _. apply Nat.eqb_eq in E. rewrite E. apply Permutation_refl.
  - cbn [orb map]. intros H.
    eapply perm_trans; [apply perm_swap |].
    apply perm_skip. apply IH. exact H.
Qed.

Lemma all_daemon_waited (l : list Worker) :
  forallb daemon l = true ->
  filter (fun k => negb (daemon k)) l = [] /\ filter daemon l = l.
Proof.
  induction l as [| k rest IH]; cbn [forallb filter]; [split; reflexivity |].
  intros H. apply andb_true_iff in H. destruct H as [Hk Hrest].
  rewrite Hk. cbn [negb]. destruct (IH Hrest) as [H1 H2].
  rewrite H1, H2. split; reflexivity.
Qed.

(** Every worker the process ever holds is a daemon thread. *)
Lemma step_daemon (env : Env) (cfg : Config) (q : Proc) (t : Tick) :
  forallb daemon (live q) = true ->
  forallb daemon (live (step env cfg q t)) = true.
Proof.
  intros Hd. unfold step, main_step, exit_process.
  destruct (main q) as [ | | a0 | e0 | e0]; destruct t as [s | | a];
    cbn [live]; try exact Hd;
    try (destruct (existsb (is_worker a) (live q)); cbn [live];
         [apply end_worker_daemon |]; exact Hd).
  - destruct (running (world q)); exact Hd.
  - destruct (audio_queue (world q)); exact Hd.
  - destruct (start_fault env a0); cbn [live]; [exact Hd |].
    rewrite forallb_app, Hd. reflexivity.
  - reflexivity.
Qed.

Lemma workers_are_daemons (env : Env) (cfg : Config) (ticks : list Tick) :
  forall q : Proc,
    forallb daemon (live q) = true ->
    forallb daemon (live (run env cfg ticks q)) = true.
Proof.
  induction ticks as [| t rest IH]; intros q Hd; [exact Hd |].
  change (run env cfg (t :: rest) q) with (run env cfg rest (step env cfg q t)).
  apply IH, step_daemon, Hd.
Qed.

Ltac facts :=
  refine (conj _ (conj _ (conj _ (conj _ (conj _ (conj _ (conj _
            (conj _ _))))))));
  try first [ assumption | reflexivity | cbn [List.length]; lia | discriminate
            | apply Permutation_refl
            | intros ? ?; left; assumption ].

(** One tick in a process whose flag is cleared. *)
Lemma step_cleared (env : Env) (cfg : Config) (q : Proc) (t : Tick) :
  running (world q) = false ->
  forallb daemon (live q) = true ->
  (forall e, main q = Exited e -> live q = []) ->
  exists started : list Audio,
    running (world (step env cfg q t)) = false
    /\ forallb daemon (live (step env cfg q t)) = true
    /\ (forall e, main (step env cfg q t) = Exited e ->
        live (step env cfg q t) = [])
    /\ waits (step env cfg q t) = waits q
    /\ spawned (trace (world (step env cfg q t)))
       = spawned (trace (world q)) ++ started
    /\ (List.length started + slack (main (step env cfg q t))
        <= slack (main q))%nat
    /\ (rank (main (step env cfg q t))
        <= rank (main q) - (if is_main t then 1 else 0))%nat
    /\ Permutation (workers_of (step env cfg q t)) (workers_of q ++ started)
    /\ (forall a, In a (finished (step env cfg q t)) ->
        In a (finished q) \/ t = WorkerEnds a).
Proof.
  intros Hrun Hd Hex.
  assert (Hstim : forall s : Stimulus,
            exists started : list Audio,
              let q' := mkProc (snd (deliver cfg s (world q))) (main q)
                          (live q) (finished q) (abandoned q) (waits q) in
              running (world q') = false
              /\ forallb daemon (live q') = true
              /\ (forall e, main q' = Exited e -> live q' = [])
              /\ waits q' = waits q
              /\ spawned (trace (world q')) = spawned (trace (world q)) ++ started
              /\ (List.length started + slack (main q') <= slack (main q))%nat
              /\ (rank (main q') <= rank (main q) - 0)%nat
              /\ Permutation (workers_of q') (workers_of q ++ started)
              /\ (forall a, In a (finished q') ->
                  In a (finished q) \/ Stimulate s = WorkerEnds a)).
  { intros s. exists []. cbv zeta.
    destruct (deliver_cleared cfg s (world q) Hrun) as [H1 H2].
    rewrite !app_nil_r. unfold workers_of.
    cbn [world main live finished abandoned waits].
    facts. }
  assert (Hend : forall a : Audio,
            exists started : list Audio,
              let q' := if existsb (is_worker a) (live q)
                        then mkProc (snd (_process_audio env cfg a (world q)))
                               (main q) (end_worker a (live q))
                               (finished q ++ [a]) (abandoned q) (waits q)
                        else q in
              running (world q') = false
              /\ forallb daemon (live q') = true
              /\ (forall e, main q' = Exited e -> live q' = [])
              /\ waits q' = waits q
              /\ spawned (trace (world q')) = spawned (trace (world q)) ++ started
              /\ (List.length started + slack (main q') <= slack (main q))%nat
              /\ (rank (main q') <= rank (main q) - 0)%nat
              /\ Permutation (workers_of q') (workers_of q ++ started)
              /\ (forall a', In a' (finished q') ->
                  In a' (finished q) \/ WorkerEnds a = WorkerEnds a')).
  { intros a. exists []. cbv zeta. rewrite !app_nil_r.
    destruct (existsb (is_worker a) (live q)) eqn:Hlive; [| facts].
    destruct (Keeps_process_audio env cfg a (world q)) as [H1 H2].
    unfold workers_of. cbn [world main live finished abandoned waits].
    facts.
    - rewrite H1. exact Hrun.
    - apply end_worker_daemon. exact Hd.
    - intros e He. rewrite (Hex e He) in Hlive. discriminate.
    - rewrite <- (end_worker_perm a (live q) Hlive).
      rewrite <- !app_assoc. cbn [app].
      apply Permutation_sym. rewrite !app_assoc. apply Permutation_middle.
    - intros a' Ha. apply in_app_or in Ha. destruct Ha as [Ha | [Ha | []]].
      + left. exact Ha.
      + right. rewrite Ha. reflexivity. }
  unfold step.
  destruct (main q) as [ | | a0 | e0 | e0] eqn:Hm.
  5: { exists []. rewrite !app_nil_r, Hm. cbn [rank slack]. facts. }
  all: destruct t as [s | | a];
    [ destruct (Hstim s) as [st Hst]; exists st; cbv zeta in Hst;
      cbn [is_main]; rewrite Nat.sub_0_r in *; exact Hst
    |
    | destruct (Hend a) as [st Hst]; exists st; cbv zeta in Hst;
      cbn [is_main]; rewrite Nat.sub_0_r in *; exact Hst ].
  all: unfold main_step; rewrite Hm; cbn [is_main rank slack].
  - rewrite Hrun. exists []. rewrite !app_nil_r. unfold workers_of.
    cbn [world main live finished abandoned waits rank slack emit trace
         running].
    facts.
    unfold spawned. rewrite flat_map_app. apply app_nil_r.
  - destruct (audio_queue (world q)) as [| a r]; exists [];
      rewrite !app_nil_r; unfold workers_of;
      cbn [world main live finished abandoned waits rank slack
           set_audio_queue trace running];
      facts.
  - destruct (start_fault env a0) as [msg |].
    + exists []. rewrite !app_nil_r. unfold workers_of.
      cbn [world main live finished abandoned waits rank slack trace running].
      facts.
    + exists [a0]. unfold workers_of.
      cbn [world main live finished abandoned waits rank slack emit trace
           running List.length].
      facts.
      * rewrite forallb_app, Hd. reflexivity.
      * unfold spawned. rewrite flat_map_app. reflexivity.
      * rewrite map_app. cbn [map snippet].
        rewrite <- !app_assoc. apply Permutation_app_head.
        cbn [app]. rewrite app_assoc. apply Permutation_cons_append.
  - unfold exit_process.
    cbn [world main live finished abandoned waits rank slack].
    destruct (all_daemon_waited (live q) Hd) as [Hw Hdr]. rewrite Hw, Hdr.
    cbn [map workers_in_turn ret snd]. exists []. rewrite !app_nil_r.
    unfold workers_of.
    cbn [world main live finished abandoned waits rank slack emits trace
         running map app].
    rewrite ?app_nil_r.
    facts.
    + unfold spawned. rewrite flat_map_app. apply app_nil_r.
    + rewrite (app_assoc (finished q)). apply Permutation_app_comm.
Qed.

(** Any number of ticks in a process whose flag is cleared. *)
Lemma run_cleared (env : Env) (cfg : Config) (ticks : list Tick) :
  forall q : Proc,
    running (world q) = false ->
    forallb daemon (live q) = true ->
    (forall e, main q = Exited e -> live q = []) ->
    exists started : list Audio,
      running (world (run env cfg ticks q)) = false
      /\ forallb daemon (live (run env cfg ticks q)) = true
      /\ (forall e, main (run env cfg ticks q) = Exited e ->
          live (run env cfg ticks q) = [])
      /\ waits (run env cfg ticks q) = waits q
      /\ spawned (trace (world (run env cfg ticks q)))
         = spawned (trace (world q)) ++ started
      /\ (List.length started + slack (main (run env cfg ticks q))
          <= slack (main q))%nat
      /\ (rank (main (run env cfg ticks q))
          <= rank (main q) - main_steps ticks)%nat
      /\ Permutation (workers_of (run env cfg ticks q))
                     (workers_of q ++ started)
      /\ (forall a, In a (finished (run env cfg ticks q)) ->
          In a (finished q) \/ In (WorkerEnds a) ticks).
Proof.
  induction ticks as [| t rest IH]; intros q Hrun Hd Hex.
  - exists []. rewrite !app_nil_r. cbn [run fold_left].
    change (main_steps []) with 0%nat. facts.
  - destruct (step_cleared env cfg q t Hrun Hd Hex)
      as (s1 & R1 & D1 & E1 & W1 & S1 & K1 & N1 & P1 & F1).
    destruct (IH (step env cfg q t) R1 D1 E1)
      as (s2 & R2 & D2 & E2 & W2 & S2 & K2 & N2 & P2 & F2).
    change (run env cfg (t :: rest) q) with (run env cfg rest (step env cfg q t)).
    exists (s1 ++ s2).
    refine (conj R2 (conj D2 (conj E2 (conj _ (conj _ (conj _ (conj _
              (conj _ _)))))))).
    + congruence.
    + rewrite S2, S1. symmetry. apply app_assoc.
    + rewrite length_app. lia.
    + unfold main_steps in *. cbn [filter].
      destruct (is_main t); cbn [List.length]; lia.
    + eapply perm_trans; [exact P2 |].
      rewrite app_assoc. apply Permutation_app_tail. exact P1.
    + intros a Ha. destruct (F2 a Ha) as [H | H].
      * destruct (F1 a H) as [H' | H']; [left; exact H' |].
        right. left. exact H'.
      * right. right. exact H.
Qed.

(** A process that is gone does not move. *)
Lemma exited_is_final (env : Env) (cfg : Config) (ticks : list Tick) :
  forall (q : Proc) (e : option exn),
    main q = Exited e -> run env cfg ticks q = q.
Proof.
  induction ticks as [| t rest IH]; intros q e Hm; [reflexivity |].
  change (run env cfg (t :: rest) q) with (run env cfg rest (step env cfg q t)).
  assert (Hs : step env cfg q t = q) by (unfold step; rewrite Hm; reflexivity).
  rewrite Hs. apply (IH q e Hm).
Qed.

(** The signal handler, run while the main thread is in the loop. *)
Lemma handler_step (env : Env) (cfg : Config) (signum : Z) (p : Proc) :
  in_loop (main p) = true ->
  step env cfg p (Stimulate (Signalled signum))
  = mkProc (set_running false (emit (EvLog INFO (MsgReceivedSignal signum))
                                    (world p)))
           (main p) (live p) (finished p) (abandoned p) (waits p).
Proof.
  intros Hin. unfold step.
  destruct (main p); try discriminate; reflexivity.
Qed.

(** The three program points of one evaluation of the loop, taken together,
    are [process_queue_turn]. *)
Lemma one_turn_is_process_queue_turn (env : Env) (cfg : Config) (p : Proc) :
  main p = AtTest ->
  world (one_turn env cfg p) = snd (process_queue_turn env (world p))
  /\ main (one_turn env cfg p)
     = match fst (process_queue_turn env (world p)) with
       | Return true => AtTest
       | Return false => AtFinally None
       | Raise e => AtFinally (Some e)
       end
  /\ live (one_turn env cfg p)
     = live p ++ map (fun a => mkWorker a true)
                     (skipn (List.length (spawned (trace (world p))))
                            (spawned (trace (world (one_turn env cfg p))))).
Proof.
  intros Hm.
  assert (Hskip : forall (l : list Audio) (x : list Audio),
            skipn (List.length l) (l ++ x) = x).
  { intros l x. induction l as [| y l IH]; [reflexivity | exact IH]. }
  rewrite turn_eq. unfold one_turn, main_step. rewrite Hm.
  destruct (running (world p)) eqn:Hrun;
    cbn [main world live finished abandoned waits].
  - destruct (audio_queue (world p)) as [| a q] eqn:Hq;
      cbn [main world live finished abandoned waits fst snd].
    + rewrite <- (app_nil_r (spawned (trace (world p)))) at 2.
      rewrite Hskip, app_nil_r. repeat split; reflexivity.
    + destruct (start_fault env a) as [msg |];
        cbn [main world live finished abandoned waits fst snd].
      * cbn [set_audio_queue trace].
        rewrite <- (app_nil_r (spawned (trace (world p)))) at 2.
        rewrite Hskip, app_nil_r. repeat split; reflexivity.
      * cbn [emit set_audio_queue trace].
        unfold spawned at 2. rewrite flat_map_app.
        fold (spawned (trace (world p))). rewrite Hskip.
        repeat split; reflexivity.
  - cbn [fst snd emit trace].
    unfold spawned at 2. rewrite flat_map_app.
    fold (spawned (trace (world p))). rewrite Hskip, app_nil_r.
    repeat split; reflexivity.
Qed.

End Frame.

(** C7, as stated, fails on the last clause.  With the default configuration
    a snippet is captured and its worker started, then SIGINT arrives and
    the main thread leaves the loop, [run] and the program before the worker
    is scheduled: the worker is a daemon thread, nobody joins it, and it is
    abandoned without having printed, spoken or logged anything.  Had it
    been scheduled before the exit it would have answered "Vaibhav". *)
Lemma spawned_worker_is_abandoned :
  let p0 := Process.boot (set_running true initial_world) in
  let p := Process.run Samples.env_sentence default_config
             Process.exit_before_worker p0 in
  let p' := Process.run Samples.env_sentence default_config
              Process.worker_before_exit p0 in
  (spawned (trace (Process.world p)) = [0%nat]
   /\ Process.main p = Process.Exited None
   /\ Process.live p = []
   /\ Process.finished p = []
   /\ Process.abandoned p = [0%nat]
   /\ printed (trace (Process.world p)) = []
   /\ attempts_made (trace (Process.world p)) = []
   /\ count (Process.world p) = 0)
  /\ (Process.finished p' = [0%nat]
      /\ Process.abandoned p' = []
      /\ printed (trace (Process.world p')) = ["Vaibhav"]
      /\ count (Process.world p') = 1).
Proof. vm_compute. repeat split; reflexivity. Qed.

(** C7, amended.  A signal arrives while the main thread is in the dispatch
    loop and every live worker is a daemon thread, as [process_queue] starts
    them.  The handler clears the flag, logs, and touches neither the main
    thread's position nor any worker.  Whatever is scheduled afterwards, the
    loop begins no further [get] wait and starts at most one more worker,
    and only when the signal fell between the test of the flag and the start
    of the thread; after four steps of its own the main thread has left the
    program.  Every worker is then finished or abandoned, a worker is
    finished only if it was scheduled to its end before the exit, and
    nothing moves after the exit. *)
Theorem shutdown_after_signal :
  forall (env : Env) (cfg : Config) (signum : Z) (p : Process.Proc)
         (ticks : list Process.Tick),
    Process.in_loop (Process.main p) = true ->
    forallb Process.daemon (Process.live p) = true ->
    let p1 := Process.step env cfg p
                (Process.Stimulate (Pipeline.Signalled signum)) in
    let p2 := Process.run env cfg ticks p1 in
    (running (Process.world p1) = false
     /\ trace (Process.world p1)
        = trace (Process.world p) ++ [EvLog INFO (MsgReceivedSignal signum)]
     /\ Process.main p1 = Process.main p
     /\ Process.live p1 = Process.live p
     /\ Process.finished p1 = Process.finished p
     /\ Process.abandoned p1 = Process.abandoned p)
    /\ Process.waits p2 = Process.waits p
    /\ (exists started : list Audio,
          spawned (trace (Process.world p2))
          = spawned (trace (Process.world p)) ++ started
          /\ (List.length started <= Process.slack (Process.main p))%nat
          /\ Permutation (Process.workers_of p2)
                         (Process.workers_of p ++ started))
    /\ (forall a, In a (Process.finished p2) ->
        In a (Process.finished p) \/ In (Process.WorkerEnds a) ticks)
    /\ ((4 <= Process.main_steps ticks)%nat ->
        exists e, Process.main p2 = Process.Exited e)
    /\ (forall e, Process.main p2 = Process.Exited e ->
        Process.live p2 = []
        /\ forall more, Process.run env cfg more p2 = p2).
Proof.
  intros env cfg signum p ticks Hin Hd p1 p2.
  assert (Hp1 : p1 = Process.mkProc
                       (set_running false
                          (emit (EvLog INFO (MsgReceivedSignal signum))
                                (Process.world p)))
                       (Process.main p) (Process.live p) (Process.finished p)
                       (Process.abandoned p) (Process.waits p))
    by (apply handler_step; exact Hin).
  assert (Hrun1 : running (Process.world p1) = false)
    by (rewrite Hp1; reflexivity).
  assert (Hd1 : forallb Process.daemon (Process.live p1) = true)
    by (rewrite Hp1; exact Hd).
  assert (Hex1 : forall e, Process.main p1 = Process.Exited e ->
                           Process.live p1 = []).
  { rewrite Hp1. cbn [Process.main]. intros e He. rewrite He in Hin.
    discriminate. }
  destruct (run_cleared env cfg ticks p1 Hrun1 Hd1 Hex1)
    as (started & R & D & E & W & S & K & N & P & F).
  fold p2 in R, D, E, W, S, K, N, P, F.
  assert (Hsp : spawned (trace (Process.world p1))
                = spawned (trace (Process.world p))).
  { rewrite Hp1. cbn [Process.world set_running emit trace].
    unfold spawned. rewrite flat_map_app. apply app_nil_r. }
  split; [rewrite Hp1; repeat split; reflexivity |].
  split; [rewrite W, Hp1; reflexivity |].
  split.
  { exists started. split; [rewrite S, Hsp; reflexivity |].
    split; [rewrite Hp1 in K; cbn [Process.main] in K; lia |].
    rewrite Hp1 in P. exact P. }
  split.
  { intros a Ha. destruct (F a Ha) as [H | H]; [| right; exact H].
    left. rewrite Hp1 in H. exact H. }
  split.
  { intros Hsteps.
    assert (Hrank : (Process.rank (Process.main p1) <= 4)%nat)
      by (destruct (Process.main p1); cbn [Process.rank]; lia).
    destruct (Process.main p2) as [ | | a | e | e] eqn:Hm;
      cbn [Process.rank] in N; try lia.
    exists e. reflexivity. }
  intros e He. split; [exact (E e He) |].
  intros more. apply (exited_is_final env cfg more p2 e He).
Qed.

Lemma shutdown_after_signal_witness :
  let env := Samples.env_sentence in
  let cfg := default_config in
  let p := Process.run env cfg
             [Process.Stimulate (Pipeline.Captured 0%nat);
              Process.MainStep; Process.MainStep]
             (Process.boot (set_running true initial_world)) in
  let ticks := [Process.MainStep; Process.MainStep; Process.MainStep;
                Process.MainStep; Process.WorkerEnds 0%nat] in
  let p1 := Process.step env cfg p
              (Process.Stimulate (Pipeline.Signalled 2)) in
  let p2 := Process.run env cfg ticks p1 in
  (Process.main p = Process.AtStart 0%nat
   /\ Process.main p2 = Process.Exited None
   /\ Process.abandoned p2 = [0%nat])
  /\ (running (Process.world p1) = false
      /\ trace (Process.world p1)
         = trace (Process.world p) ++ [EvLog INFO (MsgReceivedSignal 2)]
      /\ Process.main p1 = Process.main p
      /\ Process.live p1 = Process.live p
      /\ Process.finished p1 = Process.finished p
      /\ Process.abandoned p1 = Process.abandoned p)
  /\ Process.waits p2 = Process.waits p
  /\ (exists started : list Audio,
        spawned (trace (Process.world p2))
        = spawned (trace (Process.world p)) ++ started
        /\ (List.length started <= Process.slack (Process.main p))%nat
        /\ Permutation (Process.workers_of p2)
                       (Process.workers_of p ++ started))
  /\ (forall a, In a (Process.finished p2) ->
      In a (Process.finished p) \/ In (Process.WorkerEnds a) ticks)
  /\ ((4 <= Process.main_steps ticks)%nat ->
      exists e, Process.main p2 = Process.Exited e)
  /\ (forall e, Process.main p2 = Process.Exited e ->
      Process.live p2 = []
      /\ forall more, Process.run env cfg more p2 = p2).
Proof.
  intros env cfg p ticks p1 p2.
  split; [repeat split; reflexivity |].
  apply (shutdown_after_signal env cfg 2 p ticks); reflexivity.
Defined.

(** * Further properties of the code *)

(** ** One worker, whatever the service does *)
Section Worker.

Variables (env : Env) (cfg : Config) (audio : Audio).

(** The retry loop over the attempts [s, s+1, ..., MAX_RETRY]: it makes the
    first [m] of them, sleeps one second between two consecutive attempts
    and at no other time, prints and speaks nothing, and hands on a text
    only when its last attempt was transcribed. *)
Lemma loop_shape (j : nat) : forall (s : Z) (t : string) (w : World),
  s + Z.of_nat j = MAX_RETRY cfg + 1 ->
  (1 <= j)%nat ->
  exists (m : nat) (evs : list Event) (r : Result (option string)),
    recognize_loop env cfg audio (range_from s j) t w = (r, emits evs w)
    /\ (1 <= m <= j)%nat
    /\ attempts_made evs = range_from s m
    /\ sleeps evs = repeat 1 (m - 1)
    /\ printed evs = []
    /\ speech_calls evs = []
    /\ match r with
       | Return (Some t') =>
           exists s', recognize_google env audio (s + Z.of_nat m - 1) = Text s'
                      /\ t' = lower s'
       | Return None => True
       | Raise e => exists msg, e = RuntimeError msg
       end.
Proof.
  induction j as [| j IH]; intros s t w Hlast Hj; [lia |].
  cbn [range_from].
  destruct (recognize_google env audio s) as [s' | | msg | msg] eqn:Hout.
  - rewrite (loop_text env cfg audio s _ t s' w Hout).
    exists 1%nat. do 2 eexists. split; [reflexivity |].
    repeat split; try reflexivity; try lia.
    exists s'. split; [| reflexivity].
    replace (s + Z.of_nat 1 - 1) with s by lia. exact Hout.
  - rewrite (loop_unknown env cfg audio s _ t w Hout).
    exists 1%nat. do 2 eexists. split; [reflexivity |].
    repeat split; try reflexivity; lia.
  - assert (Hreq : is_request (recognize_google env audio s) = true)
      by (rewrite Hout; reflexivity).
    destruct (Z.eq_dec s (MAX_RETRY cfg)) as [Heq | Hne].
    + rewrite (loop_transient_last env cfg audio s _ t w Hreq Heq).
      exists 1%nat. do 2 eexists. split; [reflexivity |].
      repeat split; try reflexivity; lia.
    + rewrite (loop_transient_retry env cfg audio s _ t w Hreq Hne).
      assert (Hj' : (1 <= j)%nat) by lia.
      destruct (IH (s + 1) t (emits (backoff_events env audio [s]) w)
                  ltac:(lia) Hj')
        as (m & evs & r & Hrun & Hm & Ha & Hz & Hp & Hs & Hr).
      exists (S m), (backoff_events env audio [s] ++ evs), r.
      rewrite Hrun, emits_emits. split; [reflexivity |].
      rewrite attempts_made_app, sleeps_app, printed_app, speech_calls_app.
      rewrite Ha, Hz, Hp, Hs. cbn [range_from].
      split; [lia |]. split; [reflexivity |].
      split.
      { destruct m as [| m]; [lia |]. cbn. rewrite Nat.sub_0_r. reflexivity. }
      split; [reflexivity |]. split; [reflexivity |].
      destruct r as [[t' |] | e]; try exact Hr.
      destruct Hr as (s' & Hs' & Ht'). exists s'. split; [| exact Ht'].
      rewrite <- Hs'. f_equal. lia.
  - rewrite (loop_crash env cfg audio s _ t msg w Hout).
    exists 1%nat. do 2 eexists. split; [reflexivity |].
    repeat split; try reflexivity; try lia.
    exists msg. reflexivity.
Qed.

(** With an empty reply list the cycler raises before touching anything. *)
Lemma get_next_reply_empty (w : World) :
  REPLIES cfg = [] ->
  _get_next_reply cfg w = (Raise ZeroDivisionError, w).
Proof.
  intros Hnil. unfold _get_next_reply. rewrite bind_eq. cbn [get].
  rewrite bind_eq, Hnil. reflexivity.
Qed.

Lemma react_empty_replies (text : string) (w : World) :
  REPLIES cfg = [] ->
  str_in (PHRASE cfg) text = true ->
  react env cfg text w = (Raise ZeroDivisionError, w).
Proof.
  intros Hnil Hin. unfold react. rewrite Hin, bind_eq.
  rewrite (get_next_reply_empty w Hnil). reflexivity.
Qed.

(** The reaction adds no service call and no sleep. *)
Lemma react_no_attempt (text : string) (w : World) :
  attempts_made (trace (snd (react env cfg text w))) = attempts_made (trace w)
  /\ sleeps (trace (snd (react env cfg text w))) = sleeps (trace w).
Proof.
  destruct (str_in (PHRASE cfg) text) eqn:Hin.
  - destruct (REPLIES cfg) as [| r0 rs] eqn:Hrep.
    + rewrite (react_empty_replies text w Hrep Hin). split; reflexivity.
    + assert (Hne : REPLIES cfg <> []) by (rewrite Hrep; discriminate).
      destruct (react_fires env cfg Hne text w Hin)
        as (w' & Hrun & _ & _ & _ & _ & Htr).
      rewrite Hrun. cbn [snd]. rewrite Htr, attempts_made_app, sleeps_app.
      unfold reaction_events.
      destruct (tts_fault env (tts_calls w)), (disk_fault env (csv_opens w));
        cbn; rewrite !app_nil_r; split; reflexivity.
  - rewrite (react_silent env cfg text w Hin). split; reflexivity.
Qed.

End Worker.

(** A worker with at least one allowed attempt either stops in the loop or
    reacts to the lowercased transcript of its last attempt. *)
Lemma process_cases (env : Env) (cfg : Config) (audio : Audio) (w : World) :
  1 <= MAX_RETRY cfg ->
  exists (m : nat) (evs : list Event),
    (1 <= m)%nat /\ Z.of_nat m <= MAX_RETRY cfg
    /\ attempts_made evs = range_from 1 m
    /\ sleeps evs = repeat 1 (m - 1)
    /\ printed evs = []
    /\ speech_calls evs = []
    /\ ((exists r, _process_audio env cfg audio w = (r, emits evs w))
        \/ (exists s, recognize_google env audio (Z.of_nat m) = Text s
                      /\ _process_audio env cfg audio w
                         = react env cfg (lower s) (emits evs w))).
Proof.
  intros Hmax.
  destruct (loop_shape env cfg audio (Z.to_nat (MAX_RETRY cfg)) 1 "" w
              ltac:(lia) ltac:(lia))
    as (m & evs & r & Hrun & Hm & Ha & Hz & Hp & Hs & Hr).
  exists m, evs. repeat (split; [first [assumption | lia] |]).
  unfold _process_audio, range1. rewrite bind_eq, Hrun.
  destruct r as [[t' |] | e].
  - right. destruct Hr as (s' & Hs' & ->). exists s'. split; [| reflexivity].
    rewrite <- Hs'. f_equal. lia.
  - left. eexists. reflexivity.
  - left. eexists. reflexivity.
Qed.

(** X1.  Whatever the service answers, a worker with [MAX_RETRY >= 1]
    calls it for the attempts 1, 2, ..., m in this order, with
    [m <= MAX_RETRY], and sleeps exactly once, for one second, between two
    consecutive calls: m - 1 sleeps in all. *)
Theorem worker_attempts_and_backoff :
  forall (env : Env) (cfg : Config) (audio : Audio) (w : World),
    1 <= MAX_RETRY cfg ->
    exists m : nat,
      (1 <= m)%nat /\ Z.of_nat m <= MAX_RETRY cfg
      /\ attempts_made (trace (snd (_process_audio env cfg audio w)))
         = attempts_made (trace w) ++ range_from 1 m
      /\ sleeps (trace (snd (_process_audio env cfg audio w)))
         = sleeps (trace w) ++ repeat 1 (m - 1).
Proof.
  intros env cfg audio w Hmax.
  destruct (process_cases env cfg audio w Hmax)
    as (m & evs & Hm1 & Hm2 & Ha & Hz & _ & _ & [[r Hrun] | (s & _ & Hrun)]);
    exists m; (split; [exact Hm1 |]); (split; [exact Hm2 |]); rewrite Hrun.
  - cbn [snd emits trace]. rewrite attempts_made_app, sleeps_app, Ha, Hz.
    split; reflexivity.
  - destruct (react_no_attempt env cfg (lower s) (emits evs w)) as [-> ->].
    cbn [emits trace]. rewrite attempts_made_app, sleeps_app, Ha, Hz.
    split; reflexivity.
Qed.

Lemma worker_attempts_and_backoff_witness :
  exists m : nat,
    (1 <= m)%nat /\ Z.of_nat m <= 3
    /\ attempts_made
         (trace (snd (_process_audio Samples.env_flaky default_config 0%nat
                        initial_world)))
       = [] ++ range_from 1 m
    /\ sleeps
         (trace (snd (_process_audio Samples.env_flaky default_config 0%nat
                        initial_world)))
       = [] ++ repeat 1 (m - 1).
Proof.
  apply (worker_attempts_and_backoff Samples.env_flaky default_config 0%nat
           initial_world).
  cbn. lia.
Defined.

(** The two ways a worker can end, seen from outside. *)
Lemma worker_cases :
  forall (env : Env) (cfg : Config) (audio : Audio) (w : World),
    1 <= MAX_RETRY cfg ->
    REPLIES cfg <> [] ->
    let w' := snd (_process_audio env cfg audio w) in
    (count w' = count w
     /\ printed (trace w') = printed (trace w)
     /\ speech_calls (trace w') = speech_calls (trace w)
     /\ csv_file w' = csv_file w
     /\ csv_opens w' = csv_opens w)
    \/ (exists (k : Z) (s : string),
          1 <= k <= MAX_RETRY cfg
          /\ recognize_google env audio k = Text s
          /\ str_in (PHRASE cfg) (lower s) = true
          /\ count w' = count w + 1
          /\ printed (trace w') = printed (trace w) ++ [reply_at cfg (count w)]
          /\ speech_calls (trace w')
             = speech_calls (trace w)
               ++ match tts_fault env (tts_calls w) with
                  | None => [reply_at cfg (count w)]
                  | Some _ => []
                  end
          /\ csv_file w' = csv_file w ++ reaction_rows env cfg w (lower s)).
Proof.
  intros env cfg audio w Hmax Hne w'. subst w'.
  destruct (process_cases env cfg audio w Hmax)
    as (m & evs & Hm1 & Hm2 & _ & _ & Hp & Hs & [[r Hrun] | (s & Htext & Hrun)]);
    rewrite Hrun.
  - left. cbn [snd emits count trace csv_file csv_opens].
    rewrite printed_app, speech_calls_app, Hp, Hs, !app_nil_r.
    repeat split; reflexivity.
  - destruct (str_in (PHRASE cfg) (lower s)) eqn:Hin.
    + right. exists (Z.of_nat m), s.
      destruct (react_fires env cfg Hne (lower s) (emits evs w) Hin)
        as (w' & Hreact & Hc & _ & _ & Hcsv & Htr).
      rewrite Hreact. cbn [snd]. rewrite Hc, Hcsv, Htr.
      unfold reaction_rows, reaction_events.
      cbn [emits count trace csv_file csv_opens tts_calls].
      rewrite !printed_app, !speech_calls_app, Hp, Hs.
      split; [lia |]. split; [exact Htext |]. split; [exact Hin |].
      destruct (tts_fault env (tts_calls w)), (disk_fault env (csv_opens w));
        cbn; rewrite ?app_nil_r; repeat split; reflexivity.
    + left. rewrite (react_silent env cfg _ _ Hin).
      cbn [snd emits count trace csv_file csv_opens].
      rewrite printed_app, speech_calls_app, Hp, Hs, !app_nil_r.
      repeat split; reflexivity.
Qed.

(** X2.  A worker reacts at most once.  For transcripts in the ASCII range
    (where [lower] is [str.lower]): either it leaves counter, printed
    replies, speech requests and CSV file as they were, without opening the
    file; or some attempt was transcribed to a text whose lowercase form
    contains the phrase, and then the counter advances by one, the reply of
    the old counter value is printed once and spoken unless the speech
    thread cannot start, and the file is opened once: the record with the
    lowercased text is written in full when the whole [with open] block
    succeeds, nothing is written when [open] fails, and only a fragment of
    the line is left when the write or the close fails. *)
Theorem worker_reacts_at_most_once :
  forall (env : Env) (cfg : Config) (audio : Audio) (w : World),
    1 <= MAX_RETRY cfg ->
    REPLIES cfg <> [] ->
    (forall k s, recognize_google env audio k = Text s -> is_ascii s = true) ->
    let w' := snd (_process_audio env cfg audio w) in
    (count w' = count w
     /\ printed (trace w') = printed (trace w)
     /\ speech_calls (trace w') = speech_calls (trace w)
     /\ csv_file w' = csv_file w
     /\ csv_torn w' = csv_torn w
     /\ csv_opens w' = csv_opens w)
    \/ (exists (k : Z) (s : string),
          1 <= k <= MAX_RETRY cfg
          /\ recognize_google env audio k = Text s
          /\ str_in (PHRASE cfg) (lower s) = true
          /\ count w' = count w + 1
          /\ printed (trace w') = printed (trace w) ++ [reply_at cfg (count w)]
          /\ speech_calls (trace w')
             = speech_calls (trace w)
               ++ match tts_fault env (tts_calls w) with
                  | None => [reply_at cfg (count w)]
                  | Some _ => []
                  end
          /\ csv_opens w' = S (csv_opens w)
          /\ match disk_fault env (csv_opens w) with
             | None =>
                 csv_file w'
                 = csv_file w ++ [(now env (csv_opens w), lower s,
                                   reply_at cfg (count w))]
                 /\ csv_torn w' = csv_torn w
             | Some (OpenFails _) =>
                 csv_file w' = csv_file w /\ csv_torn w' = csv_torn w
             | Some (WriteFails _ fragment) =>
                 csv_file w' = csv_file w
                 /\ csv_torn w'
                    = csv_torn w ++ [(List.length (csv_file w), fragment)]
             end).
Proof.
  intros env cfg audio w Hmax Hne _ w'. subst w'.
  destruct (process_cases env cfg audio w Hmax)
    as (m & evs & Hm1 & Hm2 & _ & _ & Hp & Hs & [[r Hrun] | (s & Htext & Hrun)]);
    rewrite Hrun.
  - left. cbn [snd emits count trace csv_file csv_torn csv_opens].
    rewrite printed_app, speech_calls_app, Hp, Hs, !app_nil_r.
    repeat split; reflexivity.
  - destruct (str_in (PHRASE cfg) (lower s)) eqn:Hin.
    + right. exists (Z.of_nat m), s.
      destruct (react_fires_file env cfg Hne (lower s) (emits evs w) Hin)
        as (Hopens & _ & Htorn).
      destruct (react_fires env cfg Hne (lower s) (emits evs w) Hin)
        as (w' & Hreact & Hc & _ & _ & Hcsv & Htr).
      rewrite Hreact in *. cbn [snd] in *.
      rewrite Hc, Hcsv, Htr, Hopens, Htorn.
      unfold reaction_rows, reaction_events, reaction_torn.
      cbn [emits count trace csv_file csv_torn csv_opens tts_calls].
      rewrite !printed_app, !speech_calls_app, Hp, Hs.
      split; [lia |]. split; [exact Htext |]. split; [exact Hin |].
      destruct (tts_fault env (tts_calls w)),
               (disk_fault env (csv_opens w)) as [[msg | msg fragment] |];
        cbn; rewrite ?app_nil_r; repeat split; reflexivity.
    + left. rewrite (react_silent env cfg _ _ Hin).
      cbn [snd emits count trace csv_file csv_torn csv_opens].
      rewrite printed_app, speech_calls_app, Hp, Hs, !app_nil_r.
      repeat split; reflexivity.
Qed.

Lemma worker_reacts_at_most_once_witness :
  let w' := snd (_process_audio Samples.env_torn_write default_config 0%nat
                   initial_world) in
  (forall k s, recognize_google Samples.env_torn_write 0%nat k = Text s ->
               is_ascii s = true)
  /\ ((count w' = 0
       /\ printed (trace w') = []
       /\ speech_calls (trace w') = []
       /\ csv_file w' = []
       /\ csv_torn w' = []
       /\ csv_opens w' = 0%nat)
      \/ (exists (k : Z) (s : string),
            1 <= k <= 3
            /\ recognize_google Samples.env_torn_write 0%nat k = Text s
            /\ str_in "who is he" (lower s) = true
            /\ count w' = 0 + 1
            /\ printed (trace w') = [] ++ [reply_at default_config 0]
            /\ speech_calls (trace w') = [] ++ [reply_at default_config 0]
            /\ csv_opens w' = 1%nat
            /\ csv_file w' = []
            /\ csv_torn w' = [] ++ [(0%nat, "2024-05-01T12:00:00,who")])).
Proof.
  assert (Hascii : forall k s,
            recognize_google Samples.env_torn_write 0%nat k = Text s ->
            is_ascii s = true).
  { intros k s H. cbn in H. injection H as <-. reflexivity. }
  split; [exact Hascii |].
  apply (worker_reacts_at_most_once Samples.env_torn_write default_config
           0%nat initial_world).
  - cbn. lia.
  - discriminate.
  - exact Hascii.
Defined.

(** X3.  With an empty reply list, a snippet whose transcript contains the
    phrase makes the worker raise [ZeroDivisionError] from the modulo of
    [_get_next_reply]: the exception is not caught, and nothing is printed,
    spoken or written; the counter keeps its value. *)
Theorem empty_replies_worker_raises :
  forall (env : Env) (cfg : Config) (audio : Audio) (w : World) (s : string),
    REPLIES cfg = [] ->
    1 <= MAX_RETRY cfg ->
    recognize_google env audio 1 = Text s ->
    str_in (PHRASE cfg) (lower s) = true ->
    _process_audio env cfg audio w =
    (Raise ZeroDivisionError,
     emits [EvRecognize audio 1; EvLog DEBUG (MsgRecognized 1 (lower s))] w).
Proof.
  intros env cfg audio w s Hnil Hmax Htext Hin.
  assert (Hk : 1 <= 1 <= MAX_RETRY cfg) by lia.
  assert (Hreq : forall j, 1 <= j < 1 ->
                   is_request (recognize_google env audio j) = true)
    by (intros j Hj; lia).
  unfold _process_audio.
  rewrite bind_eq, (loop_reaches env cfg audio 1 "" w Hk Hreq).
  rewrite (loop_text env cfg audio 1 _ _ s _ Htext), emits_emits.
  cbv beta iota. apply (react_empty_replies env cfg _ _ Hnil Hin).
Qed.

Lemma empty_replies_worker_raises_witness :
  _process_audio Samples.env_sentence (mkConfig "who is he" [] 3 32) 0%nat
    initial_world =
  (Raise ZeroDivisionError,
   emits [EvRecognize 0%nat 1;
          EvLog DEBUG (MsgRecognized 1 "i wonder who is he today")]
         initial_world).
Proof.
  apply (empty_replies_worker_raises Samples.env_sentence
           (mkConfig "who is he" [] 3 32) 0%nat initial_world
           "i wonder who is he today");
    first [reflexivity | cbn; lia].
Defined.

(** ** Letter case *)

Lemma lower_char_not_upper (c : ascii) : is_upper (lower_char c) = false.
Proof.
  destruct c as [[] [] [] [] [] [] [] []]; reflexivity.
Qed.

Lemma string_app_assoc (a b c : string) :
  ((a ++ b) ++ c = a ++ (b ++ c))%string.
Proof.
  induction a as [| x a IH]; cbn; [reflexivity | rewrite IH; reflexivity].
Qed.

(** No letter of a lowercased text is an ASCII capital. *)
Lemma lower_has_no_upper (s : string) : forall (x : string) (c : ascii) (y : string),
  lower s = (x ++ String c y)%string -> is_upper c = false.
Proof.
  induction s as [| d s IH]; intros x c y H.
  - destruct x; discriminate.
  - destruct x as [| e x]; cbn in H; injection H as Hc Hrest.
    + subst c. apply lower_char_not_upper.
    + exact (IH x c y Hrest).
Qed.

Lemma lower_idempotent (s : string) : lower (lower s) = lower s.
Proof.
  induction s as [| c s IH]; cbn; [reflexivity |].
  rewrite IH. f_equal. unfold lower_char at 1.
  rewrite lower_char_not_upper. reflexivity.
Qed.

Lemma uppercase_phrase_no_match (p s a b : string) (c : ascii) :
  p = (a ++ String c b)%string ->
  is_upper c = true ->
  str_in p (lower s) = false.
Proof.
  intros Hp Hup. destruct (str_in p (lower s)) eqn:Hin; [| reflexivity].
  apply str_in_iff in Hin. destruct Hin as (x & y & Hxy).
  rewrite Hp, string_app_assoc, <- string_app_assoc in Hxy.
  cbn [String.append] in Hxy.
  rewrite (lower_has_no_upper s _ _ _ Hxy) in Hup. discriminate.
Qed.

(** X4.  The transcript is lowercased but the configured phrase is compared
    as it is: a phrase that contains an ASCII capital letter is never
    detected, so no worker ever replies, speaks, writes a row or advances
    the counter. *)
Theorem uppercase_phrase_never_fires :
  forall (env : Env) (cfg : Config) (audio : Audio) (w : World)
         (a b : string) (c : ascii),
    1 <= MAX_RETRY cfg ->
    PHRASE cfg = (a ++ String c b)%string ->
    is_upper c = true ->
    let w' := snd (_process_audio env cfg audio w) in
    count w' = count w
    /\ printed (trace w') = printed (trace w)
    /\ speech_calls (trace w') = speech_calls (trace w)
    /\ csv_file w' = csv_file w.
Proof.
  intros env cfg audio w a b c Hmax Hp Hup w'. subst w'.
  destruct (process_cases env cfg audio w Hmax)
    as (m & evs & _ & _ & _ & _ & Hpr & Hs & [[r Hrun] | (s & _ & Hrun)]);
    rewrite Hrun.
  - cbn [snd emits count trace csv_file].
    rewrite printed_app, speech_calls_app, Hpr, Hs, !app_nil_r.
    repeat split; reflexivity.
  - rewrite (react_silent env cfg _ _
               (uppercase_phrase_no_match _ s a b c Hp Hup)).
    cbn [snd emits count trace csv_file].
    rewrite printed_app, speech_calls_app, Hpr, Hs, !app_nil_r.
    repeat split; reflexivity.
Qed.

Lemma uppercase_phrase_never_fires_witness :
  let w' := snd (_process_audio Samples.env_padded
                   (mkConfig "Who is he" ["Vaibhav"; "Manas"; "Dev"] 3 32)
                   0%nat initial_world) in
  count w' = 0
  /\ printed (trace w') = []
  /\ speech_calls (trace w') = []
  /\ csv_file w' = [].
Proof.
  apply (uppercase_phrase_never_fires Samples.env_padded
           (mkConfig "Who is he" ["Vaibhav"; "Manas"; "Dev"] 3 32)
           0%nat initial_world "" "ho is he" "W"%char).
  - cbn. lia.
  - reflexivity.
  - reflexivity.
Defined.

(** X5.  With [MAX_RETRY <= 0] the loop body never runs: the service is not
    called and, the phrase being non-empty, the worker returns having done
    nothing at all. *)
Theorem no_attempt_allowed :
  forall (env : Env) (cfg : Config) (audio : Audio) (w : World),
    MAX_RETRY cfg <= 0 ->
    PHRASE cfg <> "" ->
    _process_audio env cfg audio w = (Return tt, w).
Proof.
  intros env cfg audio w Hmax Hp.
  unfold _process_audio, range1.
  replace (Z.to_nat (MAX_RETRY cfg)) with 0%nat by lia.
  cbn [range_from recognize_loop]. rewrite bind_eq. cbn [ret].
  apply react_silent.
  destruct (PHRASE cfg) as [| c p]; [congruence | reflexivity].
Qed.

Lemma no_attempt_allowed_witness :
  _process_audio Samples.env_sentence
    (mkConfig "who is he" ["Vaibhav"; "Manas"; "Dev"] 0 32) 0%nat initial_world
  = (Return tt, initial_world).
Proof.
  apply (no_attempt_allowed Samples.env_sentence
           (mkConfig "who is he" ["Vaibhav"; "Manas"; "Dev"] 0 32) 0%nat
           initial_world).
  - cbn. lia.
  - discriminate.
Defined.

(** ** The dispatch loop over a script of turns *)
Section Dispatch.
Import Pipeline.

Variable cfg : Config.

Lemma callback_eq (audio : Audio) (w : World) :
  callback cfg audio w =
  (Return tt,
   if ((0 <? QUEUE_MAXSIZE cfg)
       && (QUEUE_MAXSIZE cfg <=? len (audio_queue w)))%bool
   then emit (EvLog WARNING MsgQueueFull) w
   else emit (EvLog DEBUG MsgQueued)
          (set_audio_queue (audio_queue w ++ [audio]) w)).
Proof.
  unfold callback, put_nowait. rewrite try_except_eq, !bind_eq. cbn [get].
  destruct ((0 <? QUEUE_MAXSIZE cfg)
            && (QUEUE_MAXSIZE cfg <=? len (audio_queue w)))%bool;
    reflexivity.
Qed.

Lemma handler_eq (signum : Z) (w : World) :
  _handler signum w =
  (Return tt, set_running false (emit (EvLog INFO (MsgReceivedSignal signum)) w)).
Proof. reflexivity. Qed.

Variable env : Env.

Lemma spawned_emit (e : Event) (w : World) :
  spawned (trace (emit e w)) = spawned (trace w) ++ spawned [e].
Proof. cbn [emit trace]. apply flat_map_app. Qed.

Lemma drops_emit (e : Event) (w : World) :
  drops (trace (emit e w)) = (drops (trace w) + drops [e])%nat.
Proof.
  cbn [emit trace]. unfold drops. rewrite filter_app, length_app. reflexivity.
Qed.

Lemma captures_app (a b : list Stimulus) :
  captures (a ++ b) = captures a ++ captures b.
Proof. apply flat_map_app. Qed.

Lemma captures_captured (a : Audio) (l : list Stimulus) :
  captures (Captured a :: l) = a :: captures l.
Proof. reflexivity. Qed.

Lemma captures_signalled (n : Z) (l : list Stimulus) :
  captures (Signalled n :: l) = captures l.
Proof. reflexivity. Qed.

(** Delivering stimuli never raises, starts no worker, accounts for every
    captured snippet by a place in the queue or a warning, keeps the queue
    within its bound, and clears the flag exactly when a signal is among
    them. *)
Lemma deliver_all_facts (l : list Stimulus) : forall w : World,
  exists w',
    deliver_all cfg l w = (Return tt, w')
    /\ spawned (trace w') = spawned (trace w)
    /\ running w' = (if existsb is_signal l then false else running w)
    /\ (List.length (audio_queue w') + drops (trace w')
        = List.length (audio_queue w) + drops (trace w)
          + List.length (captures l))%nat
    /\ (0 < QUEUE_MAXSIZE cfg ->
        len (audio_queue w) <= QUEUE_MAXSIZE cfg ->
        len (audio_queue w') <= QUEUE_MAXSIZE cfg)
    /\ (QUEUE_MAXSIZE cfg <= 0
        \/ len (audio_queue w) + len (captures l) <= QUEUE_MAXSIZE cfg ->
        audio_queue w' = audio_queue w ++ captures l
        /\ drops (trace w') = drops (trace w)).
Proof.
  induction l as [| s l IH]; intros w.
  - exists w. cbn. rewrite app_nil_r.
    split; [reflexivity |]. split; [reflexivity |]. split; [reflexivity |].
    split; [lia |]. split; [auto |]. intros _. split; reflexivity.
  - cbn [deliver_all]. rewrite bind_eq.
    destruct s as [audio | signum]; cbn [deliver].
    + rewrite callback_eq, captures_captured.
      cbn [existsb is_signal orb].
      destruct ((0 <? QUEUE_MAXSIZE cfg)
                && (QUEUE_MAXSIZE cfg <=? len (audio_queue w)))%bool eqn:Hfull.
      * apply andb_true_iff in Hfull. destruct Hfull as [Hpos Hge].
        apply Z.ltb_lt in Hpos. apply Z.leb_le in Hge.
        destruct (IH (emit (EvLog WARNING MsgQueueFull) w))
          as (w' & Hrun & Hsp & Hfl & Hcons & Hbound & Hcap).
        exists w'. rewrite Hrun. split; [reflexivity |].
        rewrite spawned_emit in Hsp. rewrite drops_emit in Hcons.
        change (drops [EvLog WARNING MsgQueueFull]) with 1%nat in Hcons.
        cbn [emit audio_queue running spawned flat_map
             List.length app] in Hsp, Hfl, Hcons, Hbound.
        rewrite app_nil_r in Hsp.
        split; [exact Hsp |]. split; [exact Hfl |].
        split; [cbn [List.length]; lia |].
        split; [exact Hbound |].
        intros [Hz | Hroom]; exfalso; [lia |].
        unfold len in Hroom, Hge. cbn [List.length] in Hroom. lia.
      * destruct (IH (emit (EvLog DEBUG MsgQueued)
                        (set_audio_queue (audio_queue w ++ [audio]) w)))
          as (w' & Hrun & Hsp & Hfl & Hcons & Hbound & Hcap).
        exists w'. rewrite Hrun. split; [reflexivity |].
        rewrite spawned_emit in Hsp. rewrite drops_emit in Hcons, Hcap.
        change (drops [EvLog DEBUG MsgQueued]) with 0%nat in Hcons, Hcap.
        change (trace (set_audio_queue (audio_queue w ++ [audio]) w))
          with (trace w) in Hsp, Hcons, Hcap.
        cbn [emit set_audio_queue audio_queue running spawned flat_map
             List.length app] in Hsp, Hfl, Hcons, Hbound, Hcap.
        rewrite app_nil_r in Hsp. rewrite length_app in Hcons.
        cbn [List.length] in Hcons.
        apply andb_false_iff in Hfull.
        split; [exact Hsp |]. split; [exact Hfl |].
        split; [cbn [List.length]; lia |].
        split.
        { intros Hpos Hle. apply Hbound; [exact Hpos |].
          rewrite len_app. unfold len at 2. cbn [List.length].
          destruct Hfull as [Hf | Hf];
            [apply Z.ltb_ge in Hf | apply Z.leb_gt in Hf]; lia. }
        { intros Hroom. rewrite <- app_assoc in Hcap. cbn [app] in Hcap.
          rewrite Nat.add_0_r in Hcap.
          apply Hcap. destruct Hroom as [Hz | Hroom]; [left; exact Hz |].
          right. rewrite len_app. unfold len in *. cbn [List.length] in *.
          lia. }
    + rewrite handler_eq, captures_signalled.
      cbn [existsb is_signal orb].
      destruct (IH (set_running false
                      (emit (EvLog INFO (MsgReceivedSignal signum)) w)))
        as (w' & Hrun & Hsp & Hfl & Hcons & Hbound & Hcap).
      exists w'. rewrite Hrun. split; [reflexivity |].
      cbn [set_running audio_queue running trace] in Hsp, Hfl, Hcons, Hbound, Hcap.
      fold (emit (EvLog INFO (MsgReceivedSignal signum)) w) in Hsp, Hcons, Hcap.
      rewrite spawned_emit in Hsp. rewrite drops_emit in Hcons, Hcap.
      change (drops [EvLog INFO (MsgReceivedSignal signum)]) with 0%nat
        in Hcons, Hcap.
      cbn [emit audio_queue spawned flat_map List.length app]
        in Hsp, Hcons, Hbound, Hcap.
      rewrite app_nil_r in Hsp. rewrite Nat.add_0_r in Hcons, Hcap.
      split; [exact Hsp |].
      split; [destruct (existsb is_signal l); exact Hfl |].
      split; [exact Hcons |]. split; [exact Hbound |]. exact Hcap.
Qed.

(** One turn when every worker thread starts: it never raises, moves at
    most the front snippet from the queue to a new worker, and goes on
    exactly when the flag is set. *)
Lemma turn_facts (w : World) :
  (forall a, start_fault env a = None) ->
  exists w',
    process_queue_turn env w = (Return (running w), w')
    /\ running w' = running w
    /\ drops (trace w') = drops (trace w)
    /\ spawned (trace w') ++ audio_queue w' = spawned (trace w) ++ audio_queue w
    /\ (List.length (spawned (trace w')) <= S (List.length (spawned (trace w))))%nat
    /\ (List.length (audio_queue w') <= List.length (audio_queue w))%nat
    /\ (running w = false -> w' = emit (EvLog DEBUG MsgLoopExit) w).
Proof.
  intros Hstart.
  rewrite turn_eq. destruct (running w) eqn:Hrun.
  - destruct (audio_queue w) as [| a q] eqn:Hq.
    + exists w. rewrite Hq.
      split; [reflexivity |]. split; [exact Hrun |]. split; [reflexivity |].
      split; [reflexivity |]. split; [lia |]. split; [lia |]. discriminate.
    + rewrite (Hstart a). eexists. split; [reflexivity |].
      rewrite spawned_emit, drops_emit.
      change (drops [EvSpawn a]) with 0%nat.
      change (spawned [EvSpawn a]) with [a].
      cbn [emit set_audio_queue audio_queue running trace].
      rewrite length_app, <- app_assoc. cbn [List.length app].
      split; [exact Hrun |]. split; [lia |]. split; [reflexivity |].
      split; [lia |]. split; [lia |]. discriminate.
  - eexists. split; [reflexivity |].
    rewrite spawned_emit, drops_emit.
    change (drops [EvLog DEBUG MsgLoopExit]) with 0%nat.
    change (spawned [EvLog DEBUG MsgLoopExit]) with (@nil Audio).
    cbn [emit audio_queue running trace].
    rewrite app_nil_r.
    split; [exact Hrun |]. split; [lia |]. split; [reflexivity |].
    split; [lia |]. split; [lia |]. reflexivity.
Qed.

(** One turn in general: it leaves the flag alone, starts at most one
    worker, never lengthens the queue, ends the loop when the flag is
    cleared, and raises only when a worker thread cannot be started, the
    snippet taken from the queue then being lost. *)
Lemma turn_cases (w : World) :
  exists r w',
    process_queue_turn env w = (r, w')
    /\ running w' = running w
    /\ (List.length (audio_queue w') <= List.length (audio_queue w))%nat
    /\ (running w = false ->
        r = Return false /\ w' = emit (EvLog DEBUG MsgLoopExit) w)
    /\ (running w = true ->
        r = Return true
        \/ exists a q msg,
             audio_queue w = a :: q /\ start_fault env a = Some msg
             /\ r = Raise (RuntimeError msg) /\ w' = set_audio_queue q w).
Proof.
  rewrite turn_eq. destruct (running w) eqn:Hrun.
  - destruct (audio_queue w) as [| a q] eqn:Hq.
    + exists (Return true), w. rewrite Hq.
      split; [reflexivity |]. split; [exact Hrun |]. split; [cbn; lia |].
      split; [discriminate |]. intros _. left. reflexivity.
    + destruct (start_fault env a) as [msg |] eqn:Hf.
      * do 2 eexists. split; [reflexivity |].
        cbn [set_audio_queue running audio_queue List.length].
        split; [exact Hrun |]. split; [lia |]. split; [discriminate |].
        intros _. right. exists a, q, msg. repeat split; assumption.
      * do 2 eexists. split; [reflexivity |].
        cbn [emit set_audio_queue running audio_queue List.length].
        split; [exact Hrun |]. split; [lia |]. split; [discriminate |].
        intros _. left. reflexivity.
  - do 2 eexists. split; [reflexivity |].
    cbn [emit running audio_queue].
    split; [exact Hrun |]. split; [lia |].
    split; [intros _; split; reflexivity | discriminate].
Qed.

End Dispatch.

Section DispatchLoop.
Import Pipeline.

Variables (env : Env) (cfg : Config).

(** While no signal arrives and every worker thread starts, the loop keeps
    going; every captured snippet is then in a started worker, in the
    queue, or accounted for by a warning, and when the queue has room for
    all of them the workers start in capture order. *)
Lemma loop_without_signal (script : list (list Stimulus)) : forall w : World,
  (forall a, start_fault env a = None) ->
  running w = true ->
  Forall (fun l => existsb is_signal l = false) script ->
  exists w',
    loop env cfg script w = (Return false, w')
    /\ running w' = true
    /\ (List.length (spawned (trace w')) + List.length (audio_queue w')
        + drops (trace w')
        = List.length (spawned (trace w)) + List.length (audio_queue w)
          + drops (trace w) + List.length (captures (List.concat script)))%nat
    /\ (List.length (spawned (trace w'))
        <= List.length (spawned (trace w)) + List.length script)%nat
    /\ (QUEUE_MAXSIZE cfg <= 0
        \/ len (audio_queue w) + len (captures (List.concat script))
           <= QUEUE_MAXSIZE cfg ->
        spawned (trace w') ++ audio_queue w'
        = spawned (trace w) ++ audio_queue w ++ captures (List.concat script)
        /\ drops (trace w') = drops (trace w)).
Proof.
  induction script as [| stimuli rest IH]; intros w Hstart Hrun Hfree.
  - exists w. cbn. rewrite !app_nil_r.
    split; [reflexivity |]. split; [exact Hrun |]. split; [lia |].
    split; [lia |]. intros _. split; reflexivity.
  - inversion Hfree as [| ? ? Hnosig Hrest]; subst.
    destruct (deliver_all_facts cfg stimuli w)
      as (w1 & Hd & Hsp1 & Hfl1 & Hcons1 & _ & Hcap1).
    rewrite Hnosig, Hrun in Hfl1.
    destruct (turn_facts env w1 Hstart)
      as (w2 & Ht & Hfl2 & Hdr2 & Hfifo2 & Hsp2 & Hq2 & _).
    rewrite Hfl1 in Ht, Hfl2.
    destruct (IH w2 Hstart Hfl2 Hrest)
      as (w' & Hloop & Hfl' & Hcons' & Hsp' & Hcap').
    exists w'. split.
    { cbn [loop]. rewrite bind_eq, Hd, bind_eq, Ht. exact Hloop. }
    split; [exact Hfl' |].
    cbn [List.concat]. rewrite captures_app, length_app.
    assert (Hlen2 : (List.length (spawned (trace w2))
                     + List.length (audio_queue w2)
                     = List.length (spawned (trace w1))
                       + List.length (audio_queue w1))%nat)
      by (rewrite <- !length_app, Hfifo2; reflexivity).
    split; [rewrite Hsp1 in Hlen2; lia |].
    split; [rewrite Hsp1 in Hsp2; cbn [List.length]; lia |].
    intros Hroom.
    assert (Hroom1 : QUEUE_MAXSIZE cfg <= 0
                     \/ len (audio_queue w) + len (captures stimuli)
                        <= QUEUE_MAXSIZE cfg).
    { destruct Hroom as [Hz | Hr]; [left; exact Hz | right].
      rewrite len_app in Hr. pose proof (len_nonneg (captures (List.concat rest))).
      lia. }
    destruct (Hcap1 Hroom1) as [Hq1 Hdr1].
    assert (Hroom2 : QUEUE_MAXSIZE cfg <= 0
                     \/ len (audio_queue w2) + len (captures (List.concat rest))
                        <= QUEUE_MAXSIZE cfg).
    { destruct Hroom as [Hz | Hr]; [left; exact Hz | right].
      rewrite len_app in Hr.
      assert (len (audio_queue w2) <= len (audio_queue w1))
        by (unfold len; lia).
      rewrite Hq1, len_app in H. lia. }
    destruct (Hcap' Hroom2) as [Hfifo' Hdr'].
    split.
    + rewrite Hfifo', app_assoc, Hfifo2, Hsp1, Hq1, <- !app_assoc.
      reflexivity.
    + rewrite Hdr', Hdr2, Hdr1. reflexivity.
Qed.

(** Turns without a signal, whatever the thread starts do: either the loop
    has gone through them all and goes on with what follows, or a worker
    thread could not be started and the loop has ended with that error,
    whatever would have followed. *)
Lemma loop_prefix_cases (pre : list (list Stimulus)) : forall w : World,
  running w = true ->
  Forall (fun l => existsb is_signal l = false) pre ->
  (exists w1,
     running w1 = true
     /\ forall rest, loop env cfg (pre ++ rest) w = loop env cfg rest w1)
  \/ (exists a msg w1,
        start_fault env a = Some msg
        /\ forall rest,
             loop env cfg (pre ++ rest) w = (Raise (RuntimeError msg), w1)).
Proof.
  induction pre as [| s pre IH]; intros w Hrun Hfree.
  - left. exists w. split; [exact Hrun | reflexivity].
  - inversion Hfree as [| ? ? Hnosig Hrest]; subst.
    destruct (deliver_all_facts cfg s w) as (wa & Hda & _ & Hfla & _).
    rewrite Hnosig, Hrun in Hfla.
    destruct (turn_cases env wa) as (r & wb & Htb & Hflb & _ & _ & Hgo).
    rewrite Hfla in Hflb.
    destruct (Hgo Hfla) as [-> | (a & q & msg & _ & Hf & -> & _)].
    + destruct (IH wb Hflb Hrest)
        as [(w1 & Hfl1 & Hall) | (a & msg & w1 & Hf & Hall)].
      * left. exists w1. split; [exact Hfl1 |]. intros rest.
        rewrite <- app_comm_cons. cbn [loop].
        rewrite bind_eq, Hda, bind_eq, Htb. apply Hall.
      * right. exists a, msg, w1. split; [exact Hf |]. intros rest.
        rewrite <- app_comm_cons. cbn [loop].
        rewrite bind_eq, Hda, bind_eq, Htb. apply Hall.
    + right. exists a, msg, wb. split; [exact Hf |]. intros rest.
      rewrite <- app_comm_cons. cbn [loop].
      rewrite bind_eq, Hda, bind_eq, Htb. reflexivity.
Qed.

End DispatchLoop.

(** X6.  For any script of captures and signals, the queue never holds more
    than [QUEUE_MAXSIZE] snippets, also when the loop ends with an error;
    and the only error that leaves the loop is that of a worker thread that
    could not be started. *)
Theorem queue_never_overflows :
  forall (env : Env) (cfg : Config) (script : list (list Pipeline.Stimulus))
         (w : World),
    0 < QUEUE_MAXSIZE cfg ->
    len (audio_queue w) <= QUEUE_MAXSIZE cfg ->
    exists (r : Result bool) (w' : World),
      Pipeline.loop env cfg script w = (r, w')
      /\ len (audio_queue w') <= QUEUE_MAXSIZE cfg
      /\ match r with
         | Return _ => True
         | Raise e =>
             exists a msg, start_fault env a = Some msg
                           /\ e = RuntimeError msg
         end.
Proof.
  intros env cfg script.
  induction script as [| stimuli rest IH]; intros w Hpos Hle.
  - exists (Return false), w. split; [reflexivity |]. split; [exact Hle | exact I].
  - destruct (deliver_all_facts cfg stimuli w)
      as (w1 & Hd & _ & _ & _ & Hbound & _).
    destruct (turn_cases env w1) as (r & w2 & Ht & _ & Hq2 & Hoff & Hon).
    assert (Hle2 : len (audio_queue w2) <= QUEUE_MAXSIZE cfg).
    { specialize (Hbound Hpos Hle). unfold len in *. lia. }
    cbn [Pipeline.loop]. rewrite bind_eq, Hd, bind_eq, Ht.
    destruct (running w1) eqn:Hrun.
    + destruct (Hon eq_refl) as [-> | (a & q & msg & _ & Hf & -> & _)].
      * exact (IH w2 Hpos Hle2).
      * exists (Raise (RuntimeError msg)), w2.
        split; [reflexivity |]. split; [exact Hle2 |].
        exists a, msg. split; [exact Hf | reflexivity].
    + destruct (Hoff eq_refl) as [-> _].
      exists (Return true), w2.
      split; [reflexivity |]. split; [exact Hle2 | exact I].
Qed.

Lemma queue_never_overflows_witness :
  exists (r : Result bool) (w' : World),
    Pipeline.loop Samples.env_no_thread default_config
      [[Pipeline.Captured 1%nat; Pipeline.Captured 2%nat];
       [Pipeline.Signalled 2; Pipeline.Captured 3%nat]]
      Samples.full_world = (r, w')
    /\ len (audio_queue w') <= 32
    /\ match r with
       | Return _ => True
       | Raise e =>
           exists a msg, start_fault Samples.env_no_thread a = Some msg
                         /\ e = RuntimeError msg
       end.
Proof.
  apply (queue_never_overflows Samples.env_no_thread default_config
           [[Pipeline.Captured 1%nat; Pipeline.Captured 2%nat];
            [Pipeline.Signalled 2; Pipeline.Captured 3%nat]]
           Samples.full_world).
  - reflexivity.
  - vm_compute. discriminate.
Defined.

(** X7.  While no signal arrives and every worker thread starts, the loop
    does not end, and no snippet is lost silently or started twice: the
    workers started, the snippets still queued and the "queue full"
    warnings together count every snippet that was captured; a turn starts
    at most one worker. *)
Theorem snippets_are_accounted_for :
  forall (env : Env) (cfg : Config) (script : list (list Pipeline.Stimulus))
         (w : World),
    (forall a, start_fault env a = None) ->
    running w = true ->
    Forall (fun l => existsb Pipeline.is_signal l = false) script ->
    exists w',
      Pipeline.loop env cfg script w = (Return false, w')
      /\ running w' = true
      /\ (List.length (spawned (trace w')) + List.length (audio_queue w')
          + Pipeline.drops (trace w')
          = List.length (spawned (trace w)) + List.length (audio_queue w)
            + Pipeline.drops (trace w)
            + List.length (Pipeline.captures (List.concat script)))%nat
      /\ (List.length (spawned (trace w'))
          <= List.length (spawned (trace w)) + List.length script)%nat.
Proof.
  intros env cfg script w Hstart Hrun Hfree.
  destruct (loop_without_signal env cfg script w Hstart Hrun Hfree)
    as (w' & Hloop & Hfl & Hcons & Hsp & _).
  exists w'. repeat split; assumption.
Qed.

Lemma snippets_are_accounted_for_witness :
  exists w',
    Pipeline.loop Samples.env_sentence default_config
      [[Pipeline.Captured 1%nat; Pipeline.Captured 2%nat]; []]
      Samples.full_world = (Return false, w')
    /\ running w' = true
    /\ (List.length (spawned (trace w')) + List.length (audio_queue w')
        + Pipeline.drops (trace w')
        = 0 + 32 + 0 + 2)%nat
    /\ (List.length (spawned (trace w')) <= 0 + 2)%nat.
Proof.
  apply (snippets_are_accounted_for Samples.env_sentence default_config
           [[Pipeline.Captured 1%nat; Pipeline.Captured 2%nat]; []]
           Samples.full_world).
  - reflexivity.
  - reflexivity.
  - repeat constructor.
Defined.

(** X8.  While no signal arrives, every worker thread starts and the queue
    has room for everything that is captured (or is unbounded), nothing is
    dropped and the workers are started in capture order: the snippets
    started so far followed by those still queued are the earlier ones
    followed by the captured ones, in the order of capture. *)
Theorem workers_start_in_capture_order :
  forall (env : Env) (cfg : Config) (script : list (list Pipeline.Stimulus))
         (w : World),
    (forall a, start_fault env a = None) ->
    running w = true ->
    Forall (fun l => existsb Pipeline.is_signal l = false) script ->
    QUEUE_MAXSIZE cfg <= 0
    \/ len (audio_queue w) + len (Pipeline.captures (List.concat script))
       <= QUEUE_MAXSIZE cfg ->
    let w' := snd (Pipeline.loop env cfg script w) in
    spawned (trace w') ++ audio_queue w'
    = spawned (trace w) ++ audio_queue w ++ Pipeline.captures (List.concat script)
    /\ Pipeline.drops (trace w') = Pipeline.drops (trace w).
Proof.
  intros env cfg script w Hstart Hrun Hfree Hroom.
  destruct (loop_without_signal env cfg script w Hstart Hrun Hfree)
    as (w' & Hloop & _ & _ & _ & Hcap).
  cbv zeta. rewrite Hloop. exact (Hcap Hroom).
Qed.

Lemma workers_start_in_capture_order_witness :
  let w' := snd (Pipeline.loop Samples.env_sentence default_config
                   [[Pipeline.Captured 1%nat; Pipeline.Captured 2%nat]; [];
                    [Pipeline.Captured 3%nat]]
                   (set_running true initial_world)) in
  spawned (trace w') ++ audio_queue w' = [] ++ [] ++ [1; 2; 3]%nat
  /\ Pipeline.drops (trace w') = 0%nat.
Proof.
  apply (workers_start_in_capture_order Samples.env_sentence default_config
           [[Pipeline.Captured 1%nat; Pipeline.Captured 2%nat]; [];
            [Pipeline.Captured 3%nat]]
           (set_running true initial_world)).
  - reflexivity.
  - reflexivity.
  - repeat constructor.
  - right. vm_compute. discriminate.
Defined.

(** X9.  A signal ends the loop at the next test of the flag.  After turns
    without a signal, a turn in which a signal arrived starts no worker,
    even when snippets are queued; the loop logs its exit and returns, the
    snippets stay in the queue, and what would have come later is not
    looked at.  The one other course is that a worker thread could not be
    started in one of the turns before the signal: the loop has then ended
    there, with that error. *)
Theorem signal_ends_the_loop :
  forall (env : Env) (cfg : Config) (pre : list (list Pipeline.Stimulus))
         (stimuli : list Pipeline.Stimulus)
         (post : list (list Pipeline.Stimulus)) (w : World),
    running w = true ->
    Forall (fun l => existsb Pipeline.is_signal l = false) pre ->
    existsb Pipeline.is_signal stimuli = true ->
    (exists w1 w2,
       Pipeline.loop env cfg pre w = (Return false, w1)
       /\ Pipeline.deliver_all cfg stimuli w1 = (Return tt, w2)
       /\ Pipeline.loop env cfg (pre ++ stimuli :: post) w
          = (Return true, emit (EvLog DEBUG MsgLoopExit) w2)
       /\ running w2 = false
       /\ spawned (trace w2) = spawned (trace w1))
    \/ (exists a msg w1,
          start_fault env a = Some msg
          /\ Pipeline.loop env cfg pre w = (Raise (RuntimeError msg), w1)
          /\ Pipeline.loop env cfg (pre ++ stimuli :: post) w
             = (Raise (RuntimeError msg), w1)).
Proof.
  intros env cfg pre stimuli post w Hrun Hfree Hsig.
  destruct (loop_prefix_cases env cfg pre w Hrun Hfree)
    as [(w1 & Hfl1 & Hall) | (a & msg & w1 & Hf & Hall)].
  - left.
    destruct (deliver_all_facts cfg stimuli w1) as (w2 & Hd & Hsp & Hfl & _).
    rewrite Hsig in Hfl.
    destruct (turn_cases env w2) as (r & w3 & Ht & _ & _ & Hoff & _).
    destruct (Hoff Hfl) as [-> ->].
    exists w1, w2.
    split; [rewrite <- (app_nil_r pre), Hall; reflexivity |].
    split; [exact Hd |].
    split; [| split; assumption].
    rewrite Hall. cbn [Pipeline.loop]. rewrite bind_eq, Hd, bind_eq, Ht.
    reflexivity.
  - right. exists a, msg, w1. split; [exact Hf |].
    split; [rewrite <- (app_nil_r pre) | ]; apply Hall.
Qed.

Lemma signal_ends_the_loop_witness :
  (exists w1 w2,
     Pipeline.loop Samples.env_sentence default_config
       [[Pipeline.Captured 1%nat]]
       (set_running true initial_world) = (Return false, w1)
     /\ Pipeline.deliver_all default_config
          [Pipeline.Captured 2%nat; Pipeline.Signalled 15] w1 = (Return tt, w2)
     /\ Pipeline.loop Samples.env_sentence default_config
          ([[Pipeline.Captured 1%nat]]
           ++ [Pipeline.Captured 2%nat; Pipeline.Signalled 15]
              :: [[Pipeline.Captured 3%nat]])
          (set_running true initial_world)
        = (Return true, emit (EvLog DEBUG MsgLoopExit) w2)
     /\ running w2 = false
     /\ spawned (trace w2) = spawned (trace w1))
  \/ (exists a msg w1,
        start_fault Samples.env_sentence a = Some msg
        /\ Pipeline.loop Samples.env_sentence default_config
             [[Pipeline.Captured 1%nat]]
             (set_running true initial_world)
           = (Raise (RuntimeError msg), w1)
        /\ Pipeline.loop Samples.env_sentence default_config
             ([[Pipeline.Captured 1%nat]]
              ++ [Pipeline.Captured 2%nat; Pipeline.Signalled 15]
                 :: [[Pipeline.Captured 3%nat]])
             (set_running true initial_world)
           = (Raise (RuntimeError msg), w1)).
Proof.
  apply (signal_ends_the_loop Samples.env_sentence default_config
           [[Pipeline.Captured 1%nat]]
           [Pipeline.Captured 2%nat; Pipeline.Signalled 15]
           [[Pipeline.Captured 3%nat]] (set_running true initial_world)).
  - reflexivity.
  - repeat constructor.
  - reflexivity.
Defined.

(** [run] is its loop between the start-up lines and the clean-up, whatever
    way the loop ends. *)
Lemma run_eq (env : Env) (cfg : Config)
    (script : list (list Pipeline.Stimulus)) (w : World) :
  Pipeline.run env cfg script w =
  (fst (Pipeline.loop env cfg script
          (emits [EvLog INFO MsgStartingUp; EvBanner; EvLog INFO MsgListening;
                  EvLog DEBUG MsgLoopStart] (set_running true w))),
   emits [EvStopListening; EvLog INFO MsgShutDown]
     (snd (Pipeline.loop env cfg script
             (emits [EvLog INFO MsgStartingUp; EvBanner;
                     EvLog INFO MsgListening; EvLog DEBUG MsgLoopStart]
                    (set_running true w))))).
Proof.
  unfold Pipeline.run, Pipeline.process_queue.
  rewrite bind_eq, modify_eq. cbv beta iota.
  rewrite bind_eq, logger_eq. cbv beta iota.
  rewrite bind_eq, modify_eq. cbv beta iota.
  rewrite bind_eq, logger_eq. cbv beta iota.
  unfold try_finally.
  rewrite bind_eq, logger_eq. cbv beta iota.
  rewrite !emit_emits, !emits_emits. cbn [app].
  destruct (Pipeline.loop env cfg script _) as [[b | e] w2];
    rewrite bind_eq, modify_eq; cbv beta iota; rewrite logger_eq;
    rewrite !emit_emits, !emits_emits; reflexivity.
Qed.

(** X16.  When the thread of a captured snippet cannot be started, [run]
    ends with that [RuntimeError] although no signal arrived: the snippet
    has left the queue but no worker was started for it and no warning
    counts it; the clean-up of [run] still stops the listener and logs the
    shutdown, the flag is left set, and later stimuli are not looked at. *)
Theorem failed_thread_start_ends_the_run :
  forall (env : Env) (cfg : Config) (a : Audio) (msg : string)
         (rest : list (list Pipeline.Stimulus)) (w : World),
    audio_queue w = [] ->
    start_fault env a = Some msg ->
    Pipeline.run env cfg ([Pipeline.Captured a] :: rest) w =
    (Raise (RuntimeError msg),
     emits [EvLog INFO MsgStartingUp; EvBanner; EvLog INFO MsgListening;
            EvLog DEBUG MsgLoopStart; EvLog DEBUG MsgQueued;
            EvStopListening; EvLog INFO MsgShutDown]
           (set_running true w)).
Proof.
  intros env cfg a msg rest w Hq Hf.
  assert (Hroom : ((0 <? QUEUE_MAXSIZE cfg)
                   && (QUEUE_MAXSIZE cfg <=? len (@nil Audio)))%bool = false).
  { apply andb_false_iff.
    destruct (0 <? QUEUE_MAXSIZE cfg) eqn:E; [right | left; reflexivity].
    apply Z.ltb_lt in E. apply Z.leb_gt. unfold len. cbn. lia. }
  assert (Hloop : forall w0, audio_queue w0 = [] -> running w0 = true ->
            Pipeline.loop env cfg ([Pipeline.Captured a] :: rest) w0
            = (Raise (RuntimeError msg), emit (EvLog DEBUG MsgQueued) w0)).
  { intros w0 Hq0 Hrun0.
    cbn [Pipeline.loop Pipeline.deliver_all Pipeline.deliver].
    rewrite !bind_eq, callback_eq, Hq0, Hroom. unfold ret at 1.
    cbv beta iota. rewrite bind_eq, turn_eq.
    cbn [emit set_audio_queue running audio_queue app]. rewrite Hrun0, Hf.
    destruct w0. cbn in Hq0. subst. reflexivity. }
  rewrite run_eq, Hloop by (first [exact Hq | reflexivity]).
  cbn [fst snd]. rewrite emit_emits, !emits_emits. reflexivity.
Qed.

Lemma failed_thread_start_ends_the_run_witness :
  Pipeline.run Samples.env_no_thread default_config
    ([Pipeline.Captured 1%nat] :: [[Pipeline.Captured 2%nat]]) initial_world =
  (Raise (RuntimeError "can't start new thread"),
   emits [EvLog INFO MsgStartingUp; EvBanner; EvLog INFO MsgListening;
          EvLog DEBUG MsgLoopStart; EvLog DEBUG MsgQueued;
          EvStopListening; EvLog INFO MsgShutDown]
         (set_running true initial_world)).
Proof.
  apply (failed_thread_start_ends_the_run Samples.env_no_thread default_config
           1%nat "can't start new thread" [[Pipeline.Captured 2%nat]]
           initial_world); reflexivity.
Defined.

(** ** The speech threads and their lock *)
Section SpeechLock.
Import Speech.

Lemma nth_error_set_nth_same {A : Type} (l : list A) (i : nat) (x y : A) :
  nth_error l i = Some y -> nth_error (Race.set_nth i x l) i = Some x.
Proof.
  revert i. induction l as [| z l IH]; intros [| i] H; cbn in *;
    try discriminate; [reflexivity | apply IH; exact H].
Qed.

Lemma nth_error_set_nth_other {A : Type} (l : list A) (i j : nat) (x : A) :
  i <> j -> nth_error (Race.set_nth i x l) j = nth_error l j.
Proof.
  revert i j. induction l as [| z l IH]; intros [| i] [| j] H; cbn;
    try reflexivity; [contradiction | apply IH; congruence].
Qed.

Lemma scan_app (a b : list Sound) : forall p : Phase,
  scan p (a ++ b) = match scan p a with
                    | Some q => scan q b
                    | None => None
                    end.
Proof.
  induction a as [| s a IH]; intros p; [reflexivity |].
  cbn [app scan].
  destruct p, s; try reflexivity; try apply IH;
    destruct (Nat.eqb _ _); try reflexivity; apply IH.
Qed.

Variable f : Faults.

(** A thread that moves inside the block keeps the invariant. *)
Lemma move_inside (e : Engine) (i : nat) (text : string) (pc pc' : Pc)
    (snd' : list Sound) :
  consistent e (Some i) ->
  nth_error (pool e) i = Some (text, pc) ->
  inside pc' = true ->
  scan (phase_of i pc) snd' = Some (phase_of i pc') ->
  consistent
    (mkEngine (locked e) (Race.set_nth i (text, pc') (pool e))
              (sounds e ++ snd'))
    (Some i).
Proof.
  intros [Hout (Hlock & t0 & pc0 & Hnth & Hin & Hscan)] Hi Hin' Hstep.
  rewrite Hi in Hnth. injection Hnth as <- <-.
  split.
  - intros j t pc1 Hj Hin1. cbn [pool] in Hj.
    destruct (Nat.eq_dec i j) as [-> | Hne]; [reflexivity |].
    rewrite (nth_error_set_nth_other _ _ _ _ Hne) in Hj.
    exact (Hout j t pc1 Hj Hin1).
  - cbn [locked pool sounds]. split; [exact Hlock |].
    exists text, pc'. split; [exact (nth_error_set_nth_same _ _ _ _ Hi) |].
    split; [exact Hin' |].
    rewrite scan_app, Hscan. exact Hstep.
Qed.

Lemma step_consistent (e : Engine) (h : option nat) (i : nat) :
  consistent e h -> exists h', consistent (step f e i) h'.
Proof.
  intros Hinv. unfold step.
  destruct (nth_error (pool e) i) as [[text pc] |] eqn:Hi;
    [| exists h; exact Hinv].
  assert (Hme : inside pc = true -> h = Some i)
    by (intros Hin; exact (proj1 Hinv i text pc Hi Hin)).
  destruct pc.
  - (* Waiting *)
    destruct (locked e) eqn:Hlock; [exists h; exact Hinv |].
    destruct Hinv as [Hout Hh].
    destruct h as [k |]; [destruct Hh as [Hl _]; congruence |].
    destruct Hh as [_ Hscan].
    exists (Some i). split.
    + intros j t pc1 Hj Hin1. cbn [pool] in Hj.
      destruct (Nat.eq_dec i j) as [-> | Hne]; [reflexivity |].
      rewrite (nth_error_set_nth_other _ _ _ _ Hne) in Hj.
      pose proof (Hout j t pc1 Hj Hin1). discriminate.
    + cbn [locked pool sounds]. split; [reflexivity |].
      exists text, Logging.
      split; [exact (nth_error_set_nth_same _ _ _ _ Hi) |].
      split; [reflexivity | exact Hscan].
  - (* Logging *)
    rewrite (Hme eq_refl) in Hinv. exists (Some i).
    apply (move_inside e i text Logging Saying _ Hinv Hi eq_refl).
    reflexivity.
  - (* Saying *)
    rewrite (Hme eq_refl) in Hinv. exists (Some i).
    destruct (say_fault f text).
    + apply (move_inside e i text Saying Releasing _ Hinv Hi eq_refl).
      cbn. rewrite Nat.eqb_refl. reflexivity.
    + apply (move_inside e i text Saying RunningLoop _ Hinv Hi eq_refl).
      cbn. rewrite Nat.eqb_refl. reflexivity.
  - (* RunningLoop *)
    rewrite (Hme eq_refl) in Hinv. exists (Some i).
    destruct (run_fault f text).
    + apply (move_inside e i text RunningLoop Releasing _ Hinv Hi eq_refl).
      cbn. rewrite Nat.eqb_refl. reflexivity.
    + apply (move_inside e i text RunningLoop Releasing _ Hinv Hi eq_refl).
      cbn. rewrite Nat.eqb_refl. reflexivity.
  - (* Releasing *)
    rewrite (Hme eq_refl) in Hinv.
    destruct Hinv as [Hout (Hlock & t0 & pc0 & Hnth & Hin & Hscan)].
    rewrite Hi in Hnth. injection Hnth as <- <-.
    exists None. split.
    + intros j t pc1 Hj Hin1. cbn [pool] in Hj.
      destruct (Nat.eq_dec i j) as [-> | Hne].
      * rewrite (nth_error_set_nth_same _ _ _ _ Hi) in Hj.
        injection Hj as <- <-. discriminate.
      * rewrite (nth_error_set_nth_other _ _ _ _ Hne) in Hj.
        pose proof (Hout j t pc1 Hj Hin1). congruence.
    + cbn [locked sounds]. split; [reflexivity | exact Hscan].
  - (* Finished *)
    exists h. exact Hinv.
Qed.

Lemma run_consistent (schedule : list nat) : forall (e : Engine) (h : option nat),
  consistent e h -> exists h', consistent (run f schedule e) h'.
Proof.
  induction schedule as [| i schedule IH]; intros e h Hinv.
  - exists h. exact Hinv.
  - destruct (step_consistent e h i Hinv) as [h1 H1].
    exact (IH (step f e i) h1 H1).
Qed.

Lemma start_consistent (texts : list string) : consistent (start texts) None.
Proof.
  split; [| split; reflexivity].
  intros j t pc Hj Hin. cbn [start pool] in Hj.
  rewrite nth_error_map in Hj.
  destruct (nth_error texts j); cbn in Hj; [| discriminate].
  injection Hj as <- <-. discriminate.
Qed.

End SpeechLock.

(** At most one element of a list satisfies [P] when all that do sit at one
    and the same index. *)
Lemma at_most_one {A : Type} (P : A -> bool) (h : option nat) (l : list A) :
  forall k : nat,
    (forall j x, nth_error l j = Some x -> P x = true -> h = Some (k + j)%nat) ->
    (List.length (filter P l) <= 1)%nat.
Proof.
  induction l as [| x l IH]; intros k H; [cbn; lia |].
  cbn [filter]. destruct (P x) eqn:Px.
  - assert (Hh : h = Some (k + 0)%nat) by (apply (H 0%nat x); [reflexivity | exact Px]).
    assert (Hnone : filter P l = []).
    { clear IH.
      destruct (filter P l) as [| y ys] eqn:Hf; [reflexivity | exfalso].
      assert (Hy : In y (filter P l)) by (rewrite Hf; left; reflexivity).
      apply filter_In in Hy. destruct Hy as [Hy HPy].
      apply In_nth_error in Hy. destruct Hy as [j Hj].
      pose proof (H (S j) y Hj HPy) as Hh'. rewrite Hh in Hh'.
      injection Hh' as Hh'. lia. }
    rewrite Hnone. cbn. lia.
  - apply (IH (S k)). intros j y Hj HPy.
    replace (S k + j)%nat with (k + S j)%nat by lia.
    exact (H (S j) y Hj HPy).
Qed.

(** X10.  The speech threads are serialised by the lock, whatever the
    scheduler does and whichever engine calls fail: at any moment at most
    one thread is inside the [with self.lock] block, and the log lines and
    engine calls come out as whole utterances, one thread's [say] never
    falling between another thread's [say] and [runAndWait]. *)
Theorem speech_is_serialised :
  forall (f : Speech.Faults) (texts : list string) (schedule : list nat),
    let e := Speech.run f schedule (Speech.start texts) in
    (List.length (Speech.holders e) <= 1)%nat
    /\ exists p, Speech.scan Speech.Idle (Speech.sounds e) = Some p.
Proof.
  intros f texts schedule e.
  destruct (run_consistent f schedule _ _ (start_consistent texts))
    as [h [Hout Hh]].
  fold e in Hout, Hh. split.
  - unfold Speech.holders.
    apply (at_most_one (fun tp => Speech.inside (snd tp)) h _ 0%nat).
    intros j [t pc] Hj Hin. exact (Hout j t pc Hj Hin).
  - destruct h as [i |].
    + destruct Hh as (_ & t & pc & _ & _ & Hscan). eexists. exact Hscan.
    + destruct Hh as [_ Hscan]. eexists. exact Hscan.
Qed.

(** ** voice.py over several turns *)
Section VoiceRuns.
Import VoiceLoop.

(** The name [voice.py] prints at counter value [c]. *)
Lemma voice_pick_eq (c : Z) :
  Voice.pick c = inr (nth (Z.to_nat (c mod 3)) Voice.REPLIES "").
Proof.
  unfold Voice.pick, mod_. change (len Voice.REPLIES =? 0) with false.
  cbv iota.
  apply (getitem_mod Voice.REPLIES c ""). discriminate.
Qed.

Lemma names_app (a b : list Voice.Out) : names (a ++ b) = names a ++ names b.
Proof. apply flat_map_app. Qed.

(** One turn that does not crash: the counter and the printed names move
    exactly when the lowercased transcript contains the phrase. *)
Lemma voice_turn_facts (o : Outcome) (st : Voice.State) :
  is_crash o = false ->
  exists st',
    Voice.main_turn o st = inr st'
    /\ Voice.count st' = Voice.count st + (if fires o then 1 else 0)
    /\ names (Voice.stdout st')
       = names (Voice.stdout st)
         ++ (if fires o
             then [nth (Z.to_nat (Voice.count st mod 3)) Voice.REPLIES ""]
             else []).
Proof.
  intros Hc. unfold Voice.main_turn, Voice.listen_for_who_is_he.
  destruct o as [s | | msg | msg]; try discriminate; cbn [fires].
  - destruct (str_in "who is he" (lower s)).
    + cbn [Voice.print Voice.count Voice.stdout]. rewrite voice_pick_eq.
      eexists. split; [reflexivity |].
      cbn [Voice.print Voice.count Voice.stdout].
      rewrite !names_app. cbn. rewrite app_nil_r.
      split; reflexivity.
    + eexists. split; [reflexivity |].
      cbn [Voice.print Voice.count Voice.stdout].
      rewrite names_app. cbn. rewrite !app_nil_r. split; [lia | reflexivity].
  - eexists. split; [reflexivity |].
    cbn [Voice.print Voice.count Voice.stdout].
    rewrite names_app. cbn. rewrite !app_nil_r. split; [lia | reflexivity].
  - eexists. split; [reflexivity |].
    cbn [Voice.print Voice.count Voice.stdout].
    rewrite !names_app. cbn. rewrite !app_nil_r. split; [lia | reflexivity].
Qed.

End VoiceRuns.

Ltac same_residue :=
  match goal with
  | |- nth (Z.to_nat (?a mod 3)) _ _ = nth (Z.to_nat (?b mod 3)) _ _ =>
      let E := fresh in
      assert (E : a = b) by lia;
      exact (f_equal (fun z => nth (Z.to_nat (z mod 3)) Voice.REPLIES "") E)
  end.

(** X11.  Over any number of turns in which the recogniser does not fail
    in an unforeseen way, [voice.py] never stops with an error, counts
    exactly the turns whose lowercased transcript contains "who is he", and
    prints for them, in order, the names of the cycle Vaibhav, Manas, Dev
    continued from the counter it started with. *)
Theorem voice_loop_cycles :
  forall (outcomes : list Outcome) (st : Voice.State),
    Forall (fun o => VoiceLoop.is_crash o = false) outcomes ->
    exists st',
      VoiceLoop.main_loop outcomes st = inr st'
      /\ Voice.count st'
         = Voice.count st
           + Z.of_nat (List.length (filter VoiceLoop.fires outcomes))
      /\ VoiceLoop.names (Voice.stdout st')
         = VoiceLoop.names (Voice.stdout st)
           ++ map (fun i => nth (Z.to_nat ((Voice.count st + Z.of_nat i) mod 3))
                                Voice.REPLIES "")
                  (seq 0 (List.length (filter VoiceLoop.fires outcomes))).
Proof.
  intros outcomes. induction outcomes as [| o rest IH]; intros st Hok.
  - exists st. cbn. rewrite app_nil_r. repeat split; lia.
  - inversion Hok as [| ? ? Ho Hrest]; subst.
    destruct (voice_turn_facts o st Ho) as (st1 & Hturn & Hc1 & Hn1).
    destruct (IH st1 Hrest) as (st' & Hloop & Hc & Hn).
    exists st'. cbn [VoiceLoop.main_loop filter]. rewrite Hturn.
    split; [exact Hloop |].
    rewrite Hc, Hn, Hc1, Hn1.
    destruct (VoiceLoop.fires o).
    + cbn [List.length seq map]. split; [lia |].
      rewrite <- app_assoc. cbn [app]. f_equal. f_equal.
      * same_residue.
      * rewrite <- seq_shift, map_map. apply map_ext. intros i.
        same_residue.
    + rewrite app_nil_r. split; [lia |]. f_equal.
      apply map_ext. intros i. same_residue.
Qed.

Lemma voice_loop_cycles_witness :
  exists st',
    VoiceLoop.main_loop
      [Text "Who is he"; Unknown; Text "hello"; Request "offline";
       Text "so who is he then"]
      (Voice.mkState 0 []) = inr st'
    /\ Voice.count st'
       = 0 + Z.of_nat (List.length (filter VoiceLoop.fires
            [Text "Who is he"; Unknown; Text "hello"; Request "offline";
             Text "so who is he then"]))
    /\ VoiceLoop.names (Voice.stdout st')
       = [] ++ map (fun i => nth (Z.to_nat ((0 + Z.of_nat i) mod 3))
                                 Voice.REPLIES "")
                   (seq 0 (List.length (filter VoiceLoop.fires
                      [Text "Who is he"; Unknown; Text "hello";
                       Request "offline"; Text "so who is he then"]))).
Proof.
  apply (voice_loop_cycles
           [Text "Who is he"; Unknown; Text "hello"; Request "offline";
            Text "so who is he then"]
           (Voice.mkState 0 [])).
  repeat constructor.
Defined.

(** ** voice.py and bibb.py on the same snippets *)

(** A worker of [bibb.py] under the default configuration, on a snippet for
    which the service gives the same outcome at every attempt. *)
Lemma worker_constant_outcome (env : Env) (a : Audio) (o : Outcome) (w : World) :
  (forall k, recognize_google env a k = o) ->
  VoiceLoop.is_crash o = false ->
  exists w',
    _process_audio env default_config a w = (Return tt, w')
    /\ count w' = count w + (if VoiceLoop.fires o then 1 else 0)
    /\ printed (trace w')
       = printed (trace w)
         ++ (if VoiceLoop.fires o
             then [nth (Z.to_nat (count w mod 3)) Voice.REPLIES ""]
             else []).
Proof.
  intros Hconst Hc.
  assert (Hne : REPLIES default_config <> []) by discriminate.
  unfold _process_audio. rewrite bind_eq.
  destruct o as [s | | msg | msg]; try discriminate; cbn [VoiceLoop.fires].
  - assert (Hk : 1 <= 1 <= MAX_RETRY default_config) by (cbn; lia).
    rewrite (loop_reaches env default_config a 1 "" w Hk)
      by (intros j Hj; lia).
    rewrite (loop_text env default_config a 1 _ _ s _ (Hconst 1)), emits_emits.
    cbv beta iota.
    change (str_in "who is he" (lower s))
      with (str_in (PHRASE default_config) (lower s)).
    destruct (str_in (PHRASE default_config) (lower s)) eqn:Hin.
    + match goal with |- context [react env default_config (lower s) ?w1] =>
        destruct (react_fires env default_config Hne (lower s) w1 Hin)
          as (w' & Hrun & Hcnt & _ & _ & _ & Htr) end.
      exists w'. split; [exact Hrun |]. rewrite Hcnt, Htr.
      unfold reaction_events.
      cbn [emits count trace tts_calls csv_opens].
      split; [reflexivity |]. rewrite !printed_app.
      destruct (tts_fault env (tts_calls w)), (disk_fault env (csv_opens w));
        cbn; rewrite ?app_nil_r; reflexivity.
    + rewrite (react_silent env default_config _ _ Hin).
      eexists. split; [reflexivity |]. cbn [emits count trace].
      rewrite printed_app. cbn. rewrite !app_nil_r. split; [lia | reflexivity].
  - assert (Hk : 1 <= 1 <= MAX_RETRY default_config) by (cbn; lia).
    rewrite (loop_reaches env default_config a 1 "" w Hk)
      by (intros j Hj; lia).
    rewrite (loop_unknown env default_config a 1 _ _ _ (Hconst 1)), emits_emits.
    eexists. split; [reflexivity |]. cbn [emits count trace].
    rewrite printed_app. cbn. rewrite !app_nil_r. split; [lia | reflexivity].
  - assert (Hk : 1 <= 3 <= MAX_RETRY default_config) by (cbn; lia).
    assert (Hreq : forall j, is_request (recognize_google env a j) = true)
      by (intros j; rewrite Hconst; reflexivity).
    rewrite (loop_reaches env default_config a 3 "" w Hk (fun j _ => Hreq j)).
    rewrite (loop_transient_last env default_config a 3 _ _ _ (Hreq 3) eq_refl).
    rewrite emits_emits.
    destruct (backoff_events_obs env a (range_from 1 (Z.to_nat (3 - 1))))
      as (_ & Hp & _ & _).
    eexists. split; [reflexivity |]. cbn [emits count trace].
    rewrite !printed_app, Hp. cbn. rewrite !app_nil_r.
    split; [lia | reflexivity].
Qed.

(** X12.  Fed the same sequence of recognition outcomes, none of them an
    unforeseen failure, the sequential [voice.py] and the workers of
    [bibb.py] run one after the other under the default configuration print
    the same names in the same order and end with the same counter, whatever
    the speech engine and the log file do. *)
Theorem both_programs_print_the_same_names :
  forall (env : Env) (audios : list Audio) (outcomes : list Outcome)
         (w : World) (st : Voice.State),
    Forall2 (fun a o => forall k, recognize_google env a k = o)
            audios outcomes ->
    Forall (fun o => VoiceLoop.is_crash o = false) outcomes ->
    count w = Voice.count st ->
    exists (w' : World) (st' : Voice.State) (new : list string),
      Pipeline.workers_in_turn env default_config audios w = (Return tt, w')
      /\ VoiceLoop.main_loop outcomes st = inr st'
      /\ printed (trace w') = printed (trace w) ++ new
      /\ VoiceLoop.names (Voice.stdout st')
         = VoiceLoop.names (Voice.stdout st) ++ new
      /\ count w' = Voice.count st'.
Proof.
  intros env audios outcomes w st Hpair. revert w st.
  induction Hpair as [| a o audios outcomes Hao Hrest IH];
    intros w st Hok Hcount.
  - exists w, st, []. cbn. rewrite !app_nil_r. repeat split; assumption.
  - inversion Hok as [| ? ? Ho Hok']; subst.
    destruct (worker_constant_outcome env a o w Hao Ho)
      as (w1 & Hrun1 & Hc1 & Hp1).
    destruct (voice_turn_facts o st Ho) as (st1 & Hturn & Hvc1 & Hn1).
    assert (Hcount1 : count w1 = Voice.count st1) by (rewrite Hc1, Hvc1; lia).
    destruct (IH w1 st1 Hok' Hcount1)
      as (w' & st' & new & Hrun & Hloop & Hp & Hn & Hc).
    exists w', st'.
    exists ((if VoiceLoop.fires o
             then [nth (Z.to_nat (count w mod 3)) Voice.REPLIES ""]
             else []) ++ new).
    cbn [Pipeline.workers_in_turn VoiceLoop.main_loop].
    rewrite bind_eq, try_except_eq, Hrun1, Hturn.
    split; [exact Hrun |]. split; [exact Hloop |].
    rewrite Hp, Hp1, Hn, Hn1, Hcount, <- !app_assoc.
    repeat split. exact Hc.
Qed.

Lemma both_programs_print_the_same_names_witness :
  exists (w' : World) (st' : Voice.State) (new : list string),
    Pipeline.workers_in_turn
      (Pipeline.scripted
         [Text "Who is he"; Unknown; Request "offline"; Text "and who is he"]
         Samples.env_disk_hiccup)
      default_config [0; 1; 2; 3]%nat initial_world = (Return tt, w')
    /\ VoiceLoop.main_loop
         [Text "Who is he"; Unknown; Request "offline"; Text "and who is he"]
         (Voice.mkState 0 []) = inr st'
    /\ printed (trace w') = [] ++ new
    /\ VoiceLoop.names (Voice.stdout st') = [] ++ new
    /\ count w' = Voice.count st'.
Proof.
  apply (both_programs_print_the_same_names
           (Pipeline.scripted
              [Text "Who is he"; Unknown; Request "offline";
               Text "and who is he"]
              Samples.env_disk_hiccup)
           [0; 1; 2; 3]%nat
           [Text "Who is he"; Unknown; Request "offline"; Text "and who is he"]
           initial_world (Voice.mkState 0 [])).
  - repeat constructor.
  - repeat constructor.
  - reflexivity.
Defined.

(** ** The CSV file across program starts *)
Section CsvSessions.
Import CsvFile.

(** Appending row by row or all rows at once gives the same file. *)
Lemma appended_app (f : File) (a b : list Row) :
  appended f (a ++ b) = appended (appended f a) b.
Proof.
  destruct a as [| r a]; [reflexivity |].
  destruct b as [| r' b]; [rewrite app_nil_r; reflexivity |].
  cbn [appended app map]. rewrite map_app, <- app_assoc. reflexivity.
Qed.

(** On a file that exists, a program run leaves the records in place and
    adds its rows after them, whatever its set-up does. *)
Lemma session_existing (records : list Record_) (s : option string * list Row) :
  session (Some records) s = Some (records ++ map record_of (snd s)).
Proof.
  destruct s as [fault rows]. unfold session. cbn [__init__ fst snd].
  destruct rows; cbn [appended map]; [rewrite app_nil_r |]; reflexivity.
Qed.

Lemma sessions_existing (l : list (option string * list Row)) :
  forall records : list Record_,
    sessions (Some records) l
    = Some (records ++ map record_of (List.concat (map snd l))).
Proof.
  unfold sessions.
  induction l as [| s l IH]; intros records; cbn [fold_left map List.concat].
  - rewrite app_nil_r. reflexivity.
  - rewrite session_existing, IH, map_app, app_assoc. reflexivity.
Qed.

End CsvSessions.

(** X13.  The CSV file only ever grows.  Once it exists, any number of
    program runs, with whatever set-up faults, keep its records in place and
    add their rows after them in order; in particular a file created by a
    first successful set-up keeps the header as its first and only header
    record. *)
Theorem csv_file_only_grows :
  forall (records : list CsvFile.Record_)
         (runs : list (option string * list Row)) (rows1 : list Row),
    CsvFile.sessions (Some records) runs
    = Some (records
            ++ map CsvFile.record_of (List.concat (map snd runs)))
    /\ CsvFile.sessions None ((None, rows1) :: runs)
       = Some (CsvFile.header
               :: map CsvFile.record_of
                      (rows1 ++ List.concat (map snd runs))).
Proof.
  intros records runs rows1. split; [apply sessions_existing |].
  unfold CsvFile.sessions. cbn [fold_left].
  change (CsvFile.session None (None, rows1))
    with (CsvFile.appended (Some [CsvFile.header]) rows1).
  assert (H : CsvFile.appended (Some [CsvFile.header]) rows1
              = Some ([CsvFile.header] ++ map CsvFile.record_of rows1)).
  { destruct rows1; reflexivity. }
  rewrite H. fold (CsvFile.sessions
                     (Some ([CsvFile.header] ++ map CsvFile.record_of rows1))
                     runs).
  rewrite sessions_existing, map_app, <- app_assoc. reflexivity.
Qed.

(** X14.  When the set-up of the first run cannot create the file and that
    run then logs at least one interaction, the append creates the file
    without a header, and no later run ever writes one: the first record of
    the file is a data row for good. *)
Theorem failed_setup_loses_the_header :
  forall (msg : string) (row : Row) (rows1 : list Row)
         (runs : list (option string * list Row)),
    CsvFile.sessions None ((Some msg, row :: rows1) :: runs)
    = Some (CsvFile.record_of row
            :: map CsvFile.record_of
                   (rows1 ++ List.concat (map snd runs))).
Proof.
  intros msg row rows1 runs.
  unfold CsvFile.sessions. cbn [fold_left].
  change (CsvFile.session None (Some msg, row :: rows1))
    with (Some (map CsvFile.record_of (row :: rows1))).
  fold (CsvFile.sessions (Some (map CsvFile.record_of (row :: rows1))) runs).
  rewrite sessions_existing, map_app. reflexivity.
Qed.

(** ** Workers run one after the other *)

Lemma swallow_eq (m : M unit) (w : World) :
  try_except m (fun _ => ret tt) w = (Return tt, snd (m w)).
Proof.
  rewrite try_except_eq. destruct (m w) as [[[] | e] w1]; reflexivity.
Qed.

(** X15.  When the workers run one after the other, whatever the service,
    the speech engine and the file do, the replies printed follow the cycle
    from the current counter on without a gap or a repeat, the counter ends
    at the old value plus the number of replies, there are at most as many
    replies as snippets, and at most one new row per reply. *)
Theorem sequential_workers_follow_the_cycle :
  forall (env : Env) (cfg : Config) (audios : list Audio) (w : World),
    1 <= MAX_RETRY cfg ->
    REPLIES cfg <> [] ->
    exists (w' : World) (k : nat),
      Pipeline.workers_in_turn env cfg audios w = (Return tt, w')
      /\ (k <= List.length audios)%nat
      /\ count w' = count w + Z.of_nat k
      /\ printed (trace w')
         = printed (trace w)
           ++ map (fun i => reply_at cfg (count w + Z.of_nat i)) (seq 0 k)
      /\ (List.length (csv_file w') <= List.length (csv_file w) + k)%nat.
Proof.
  intros env cfg audios w Hmax Hne. revert w.
  induction audios as [| a audios IH]; intros w.
  - exists w, 0%nat. cbn. rewrite app_nil_r. repeat split; lia.
  - cbn [Pipeline.workers_in_turn]. rewrite bind_eq, swallow_eq.
    destruct (IH (snd (_process_audio env cfg a w)))
      as (w' & k & Hrun & Hk & Hc & Hp & Hrows).
    destruct (worker_cases env cfg a w Hmax Hne)
      as [(Hc1 & Hp1 & _ & Hcsv1 & _)
         | (k0 & s & _ & _ & _ & Hc1 & Hp1 & _ & Hcsv1)].
    + exists w', k. split; [exact Hrun |].
      rewrite Hc1, Hp1, Hcsv1 in *. cbn [List.length].
      repeat split; try assumption; lia.
    + exists w', (S k). split; [exact Hrun |].
      rewrite Hc1, Hp1, Hcsv1 in *. cbn [List.length seq map].
      split; [lia |]. split; [lia |]. split.
      * rewrite Hp, <- app_assoc. cbn [app]. f_equal. f_equal.
        { f_equal. lia. }
        rewrite <- seq_shift, map_map. apply map_ext. intros i.
        f_equal. lia.
      * rewrite length_app in Hrows. unfold reaction_rows in Hrows.
        destruct (disk_fault env (csv_opens w)); cbn [List.length] in Hrows;
          lia.
Qed.

Lemma sequential_workers_follow_the_cycle_witness :
  exists (w' : World) (k : nat),
    Pipeline.workers_in_turn Samples.env_disk_hiccup default_config
      [0; 1; 2; 3]%nat initial_world = (Return tt, w')
    /\ (k <= 4)%nat
    /\ count w' = 0 + Z.of_nat k
    /\ printed (trace w')
       = [] ++ map (fun i => reply_at default_config (0 + Z.of_nat i)) (seq 0 k)
    /\ (List.length (csv_file w') <= 0 + k)%nat.
Proof.
  apply (sequential_workers_follow_the_cycle Samples.env_disk_hiccup
           default_config [0; 1; 2; 3]%nat initial_world).
  - cbn. lia.
  - discriminate.
Defined.
